(** * Block addressing of the attention kernel: [flash::BlockInfo]

    A shallow embedding of [csrc/flash_attn/src/block_info.h] and the
    properties of the addressing specification stated over it.

    Conventions of the embedding.
    - A C++ [int] is a [Z] in the range [-2^31, 2^31); the result of
      every [int] operation is reduced by [int], that is, signed
      arithmetic wraps around in two's complement, as the device
      computes it.  The [int] members of the parameter struct are taken
      as they are.
    - The template parameter [index_t] of the accessors is a value of
      [int_type]; an expression of that type is reduced by [cast index_t].
      The usual arithmetic conversions of C++ convert the operands of a
      mixed product to the common type, and for every type of [int_type]
      that conversion followed by the operation is [cast] of the exact
      result, because every conversion is a reduction modulo a power
      of two.
    - The template parameter [Varlen] of the struct is a [bool] argument
      of the constructor.
    - A [const int*] is [nullptr] or the array it points to; reading
      outside the array has no defined result and is [None].  The
      accessors that read no array return a plain [Z]. *)

From Stdlib Require Import ZArith List Bool Lia.
Import ListNotations.
Local Open Scope Z_scope.

(** ** Machine integers *)

Module MachineInt.

(** The integer types that instantiate [index_t], and [int] itself. *)
Inductive int_type : Type := I32 | U32 | I64 | U64.

Definition bits (t : int_type) : Z :=
  match t with I32 | U32 => 32 | I64 | U64 => 64 end.

Definition is_signed (t : int_type) : bool :=
  match t with I32 | I64 => true | U32 | U64 => false end.

Definition modulus (t : int_type) : Z := 2 ^ bits t.

(** Conversion of an exact integer to the type [t]. *)
Definition cast (t : int_type) (z : Z) : Z :=
  let r := z mod modulus t in
  if is_signed t && (2 ^ (bits t - 1) <=? r) then r - modulus t else r.

(** [int(...)] and [uint32_t(...)]. *)
Definition int (z : Z) : Z := cast I32 z.
Definition uint32_t (z : Z) : Z := cast U32 z.

(** Values of type [t]. *)
Definition in_range (t : int_type) (z : Z) : Prop :=
  if is_signed t then - 2 ^ (bits t - 1) <= z < 2 ^ (bits t - 1)
  else 0 <= z < modulus t.

(** An [int] whose conversion to [t] loses nothing of the exact value
    [z] it stands for: always so for the 32-bit types, and for the
    64-bit ones as soon as [z] is an [int]. *)
Definition int_exact (t : int_type) (z : Z) : Prop :=
  cast t (int z) = cast t z.

End MachineInt.
Import MachineInt.

(** ** Pointers and the option monad of defined results *)

Definition int_ptr : Type := option (list Z).
Definition nullptr {A : Type} : option A := None.

Definition is_nullptr {A : Type} (p : option A) : bool :=
  match p with None => true | Some _ => false end.

(** [p[i]]: defined inside the array only. *)
Definition load (p : int_ptr) (i : Z) : option Z :=
  match p with
  | None => None
  | Some cells => if i <? 0 then None else nth_error cells (Z.to_nat i)
  end.

Definition bind {A B : Type} (m : option A) (k : A -> option B) : option B :=
  match m with Some a => k a | None => None end.

Notation "x <- m ;; k" := (bind m (fun x => k))
  (at level 61, m at next level, right associativity).
Notation "'ret' a" := (Some a) (at level 60).

(** ** The parameter struct *)

Module Params.

(** Modelled from the spec: the kernel parameter struct that
    instantiates the template parameter [Params] is not part of the
    source file; the record has the members the constructor of
    [BlockInfo] reads, with the types the constructor uses them at
    ([int], [bool], [const int*], and a pointer that is only compared
    with [nullptr]), and the [actual_batch_size] pointer of the
    configuration. *)
Record t : Type := {
  cu_seqlens_q : int_ptr;
  cu_seqlens_k : int_ptr;
  is_seqlens_k_cumulative : bool;
  seqlen_q : Z;
  seqlen_k : Z;
  knew_ptr : option unit;
  seqlen_knew : Z;
  pg_attn_block_tables_ptr : int_ptr;
  pg_attn_block_tables_batch_stride : Z;
  pg_attn_cache_block_stride : Z;
  actual_batch_size : int_ptr
}.

(** The same configuration with one member replaced. *)
Definition set_seqlen_q (n : Z) (p : t) : t :=
  {| cu_seqlens_q := cu_seqlens_q p;
     cu_seqlens_k := cu_seqlens_k p;
     is_seqlens_k_cumulative := is_seqlens_k_cumulative p;
     seqlen_q := n;
     seqlen_k := seqlen_k p;
     knew_ptr := knew_ptr p;
     seqlen_knew := seqlen_knew p;
     pg_attn_block_tables_ptr := pg_attn_block_tables_ptr p;
     pg_attn_block_tables_batch_stride := pg_attn_block_tables_batch_stride p;
     pg_attn_cache_block_stride := pg_attn_cache_block_stride p;
     actual_batch_size := actual_batch_size p |}.

Definition set_seqlen_k (n : Z) (p : t) : t :=
  {| cu_seqlens_q := cu_seqlens_q p;
     cu_seqlens_k := cu_seqlens_k p;
     is_seqlens_k_cumulative := is_seqlens_k_cumulative p;
     seqlen_q := seqlen_q p;
     seqlen_k := n;
     knew_ptr := knew_ptr p;
     seqlen_knew := seqlen_knew p;
     pg_attn_block_tables_ptr := pg_attn_block_tables_ptr p;
     pg_attn_block_tables_batch_stride := pg_attn_block_tables_batch_stride p;
     pg_attn_cache_block_stride := pg_attn_cache_block_stride p;
     actual_batch_size := actual_batch_size p |}.

Definition set_actual_batch_size (a : int_ptr) (p : t) : t :=
  {| cu_seqlens_q := cu_seqlens_q p;
     cu_seqlens_k := cu_seqlens_k p;
     is_seqlens_k_cumulative := is_seqlens_k_cumulative p;
     seqlen_q := seqlen_q p;
     seqlen_k := seqlen_k p;
     knew_ptr := knew_ptr p;
     seqlen_knew := seqlen_knew p;
     pg_attn_block_tables_ptr := pg_attn_block_tables_ptr p;
     pg_attn_block_tables_batch_stride := pg_attn_block_tables_batch_stride p;
     pg_attn_cache_block_stride := pg_attn_cache_block_stride p;
     actual_batch_size := a |}.

End Params.

(** ** [struct BlockInfo] *)

Module BlockInfo.

Record t : Type := {
  sum_s_q : Z;
  sum_s_k : Z;
  actual_seqlen_q : Z;
  seqlen_k_cache : Z;
  actual_seqlen_k : Z;
  pg_attn_block_tables_ptr : int_ptr;
  pg_attn_block_batch_stride : Z;
  pg_attn_cache_block_stride : Z;
  actual_batch_size : int_ptr
}.

(** The constructor [BlockInfo<Varlen>(params, bidb)].  The members are
    initialised in their declaration order, which is the order of the
    initialiser list; [actual_batch_size] has no initialiser and keeps
    whatever value [indeterminate] the storage holds. *)
Definition BlockInfo (Varlen : bool) (params : Params.t) (bidb : Z)
           (indeterminate : int_ptr) : option t :=
  let cu_q := Params.cu_seqlens_q params in
  let cu_k := Params.cu_seqlens_k params in
  sum_s_q' <-
    (if negb Varlen || is_nullptr cu_q then ret (-1) else load cu_q bidb) ;;
  sum_s_k' <-
    (if negb Varlen || is_nullptr cu_k
        || negb (Params.is_seqlens_k_cumulative params)
     then ret (-1) else load cu_k bidb) ;;
  actual_seqlen_q' <-
    (if negb Varlen || is_nullptr cu_q then ret (Params.seqlen_q params)
     else next <- load cu_q (int (bidb + 1)) ;; ret (int (next - sum_s_q'))) ;;
  seqlen_k_cache' <-
    (if negb Varlen || is_nullptr cu_k then ret (Params.seqlen_k params)
     else if Params.is_seqlens_k_cumulative params
          then next <- load cu_k (int (bidb + 1)) ;; ret (int (next - sum_s_k'))
          else load cu_k bidb) ;;
  ret {| sum_s_q := sum_s_q';
         sum_s_k := sum_s_k';
         actual_seqlen_q := actual_seqlen_q';
         seqlen_k_cache := seqlen_k_cache';
         actual_seqlen_k :=
           int (seqlen_k_cache'
                + (if is_nullptr (Params.knew_ptr params) then 0
                   else Params.seqlen_knew params));
         pg_attn_block_tables_ptr := Params.pg_attn_block_tables_ptr params;
         pg_attn_block_batch_stride :=
           Params.pg_attn_block_tables_batch_stride params;
         pg_attn_cache_block_stride :=
           Params.pg_attn_cache_block_stride params;
         actual_batch_size := indeterminate |}.

(** [q_offset<index_t>(batch_stride, row_stride, bidb)].  Both products
    are taken in the common type of their operands and returned as
    [index_t]. *)
Definition q_offset (index_t : int_type) (self : t)
           (batch_stride row_stride bidb : Z) : Z :=
  if sum_s_q self =? -1 then cast index_t (bidb * batch_stride)
  else cast index_t (uint32_t (sum_s_q self) * row_stride).

Definition k_offset (index_t : int_type) (self : t)
           (batch_stride row_stride bidb : Z) : Z :=
  if sum_s_k self =? -1 then cast index_t (bidb * batch_stride)
  else cast index_t (uint32_t (sum_s_k self) * row_stride).

(** The index [bidb * pg_attn_block_batch_stride + block_id] into the
    block table, an [int] expression. *)
Definition table_index (self : t) (bidb block_id : Z) : Z :=
  int (int (bidb * pg_attn_block_batch_stride self) + block_id).

(** [pg_attn_block_tables_ptr[bidb * pg_attn_block_batch_stride + block_id]]. *)
Definition block_table_entry (self : t) (bidb block_id : Z) : option Z :=
  load (pg_attn_block_tables_ptr self) (table_index self bidb block_id).

Definition k_offset_pg (index_t : int_type) (self : t)
           (batch_stride row_stride bidb block_id k_block_n : Z) : option Z :=
  if is_nullptr (pg_attn_block_tables_ptr self) then
    let original_offset :=
      cast index_t (k_offset index_t self batch_stride row_stride bidb
                    + cast index_t (int (block_id * k_block_n) * row_stride)) in
    ret original_offset
  else
    entry <- block_table_entry self bidb block_id ;;
    let pg_offset := int (entry * pg_attn_cache_block_stride self) in
    ret (cast index_t pg_offset).

Definition k_advance_offset_pg (index_t : int_type) (self : t)
           (bidb current_block_id row_stride k_block_n : Z) : option Z :=
  if is_nullptr (pg_attn_block_tables_ptr self) then
    ret (int (- int (cast index_t (k_block_n * row_stride))))
  else
    prev <- load (pg_attn_block_tables_ptr self)
                 (int (table_index self bidb current_block_id - 1)) ;;
    cur <- block_table_entry self bidb current_block_id ;;
    let offset := int (int (prev * pg_attn_cache_block_stride self)
                       - int (cur * pg_attn_cache_block_stride self)) in
    ret offset.

(** The members the constructor initialises. *)
Definition constructed (self : t)
  : Z * Z * Z * Z * Z * int_ptr * Z * Z :=
  (sum_s_q self, sum_s_k self, actual_seqlen_q self, seqlen_k_cache self,
   actual_seqlen_k self, pg_attn_block_tables_ptr self,
   pg_attn_block_batch_stride self, pg_attn_cache_block_stride self).

End BlockInfo.

(** ** Valid batch indices and page walks *)

(** [i] lies inside the array [p]; nothing is required of [nullptr],
    which is never indexed. *)
Definition in_bounds (p : int_ptr) (i : Z) : bool :=
  match p with
  | None => true
  | Some cells => (0 <=? i) && (i <? Z.of_nat (length cells))
  end.

(** The batch indices the constructor may be called with: the entries
    [bidb] and [bidb + 1] of a cumulative array exist, and the entry
    [bidb] of a key array that holds lengths. *)
Definition valid_batch_index (params : Params.t) (bidb : Z) : bool :=
  (0 <=? bidb) && (bidb <? 2 ^ 31 - 1)
  && in_bounds (Params.cu_seqlens_q params) (bidb + 1)
  && in_bounds (Params.cu_seqlens_k params)
               (if Params.is_seqlens_k_cumulative params then bidb + 1 else bidb).

(** The block table maps every logical page of every batch element to
    itself: [table[b, p] = p] for [b < batches] and [p < pages]. *)
Definition identity_table (self : BlockInfo.t) (batches pages : Z) : Prop :=
  forall b p, 0 <= b < batches -> 0 <= p < pages ->
              BlockInfo.block_table_entry self b p = Some p.

(** The physical offset of logical page [p], as [k_offset_pg] computes
    it in [int] before the conversion to [index_t]; 0 where the table
    has no such entry. *)
Definition physical_offset (self : BlockInfo.t) (bidb p : Z) : Z :=
  match BlockInfo.block_table_entry self bidb p with
  | Some entry => int (entry * BlockInfo.pg_attn_cache_block_stride self)
  | None => 0
  end.

(** The sum of the deltas of [n] backward steps that start at page
    [current]: the steps are taken at the pages [current],
    [current - 1], ..., [current - n + 1] and end on page [current - n]. *)
Fixpoint advance_sum (index_t : int_type) (self : BlockInfo.t)
         (bidb row_stride k_block_n current : Z) (n : nat) : option Z :=
  match n with
  | O => ret 0
  | S n' =>
      delta <- BlockInfo.k_advance_offset_pg index_t self bidb current
                                             row_stride k_block_n ;;
      rest <- advance_sum index_t self bidb row_stride k_block_n
                          (current - 1) n' ;;
      ret (delta + rest)
  end.

(** ** Configurations of the scenarios *)

(** Fixed-length mode throughout: no offsets, no new keys, no paging. *)
Definition padded_params : Params.t :=
  {| Params.cu_seqlens_q := nullptr;
     Params.cu_seqlens_k := nullptr;
     Params.is_seqlens_k_cumulative := true;
     Params.seqlen_q := 16;
     Params.seqlen_k := 100;
     Params.knew_ptr := nullptr;
     Params.seqlen_knew := 0;
     Params.pg_attn_block_tables_ptr := nullptr;
     Params.pg_attn_block_tables_batch_stride := 0;
     Params.pg_attn_cache_block_stride := 0;
     Params.actual_batch_size := nullptr |}.

(** Two packed sequences with the given cumulative offsets for both the
    queries and the keys, and 4 newly appended keys. *)
Definition varlen_params (cu_q cu_k : list Z) (cumulative : bool)
  : Params.t :=
  {| Params.cu_seqlens_q := Some cu_q;
     Params.cu_seqlens_k := Some cu_k;
     Params.is_seqlens_k_cumulative := cumulative;
     Params.seqlen_q := 16;
     Params.seqlen_k := 100;
     Params.knew_ptr := Some tt;
     Params.seqlen_knew := 4;
     Params.pg_attn_block_tables_ptr := nullptr;
     Params.pg_attn_block_tables_batch_stride := 0;
     Params.pg_attn_cache_block_stride := 0;
     Params.actual_batch_size := nullptr |}.

(** Fixed-length queries with a key array: the query array is absent and
    the key array is present. *)
Definition keys_only_params (cu_k : list Z) (cumulative : bool)
  : Params.t :=
  {| Params.cu_seqlens_q := nullptr;
     Params.cu_seqlens_k := Some cu_k;
     Params.is_seqlens_k_cumulative := cumulative;
     Params.seqlen_q := 16;
     Params.seqlen_k := 100;
     Params.knew_ptr := nullptr;
     Params.seqlen_knew := 0;
     Params.pg_attn_block_tables_ptr := nullptr;
     Params.pg_attn_block_tables_batch_stride := 0;
     Params.pg_attn_cache_block_stride := 0;
     Params.actual_batch_size := nullptr |}.

(** A paged cache in fixed-length mode: a flat block table with
    [batch_stride] entries per batch element and pages of [page_stride]
    elements. *)
Definition paged_params (table : list Z) (batch_stride page_stride : Z)
  : Params.t :=
  {| Params.cu_seqlens_q := nullptr;
     Params.cu_seqlens_k := nullptr;
     Params.is_seqlens_k_cumulative := true;
     Params.seqlen_q := 16;
     Params.seqlen_k := 100;
     Params.knew_ptr := nullptr;
     Params.seqlen_knew := 0;
     Params.pg_attn_block_tables_ptr := Some table;
     Params.pg_attn_block_tables_batch_stride := batch_stride;
     Params.pg_attn_cache_block_stride := page_stride;
     Params.actual_batch_size := nullptr |}.

(** ** Configurations that hold [int]s *)

(** Every element of the array is a value of type [int]. *)
Definition int_array (p : int_ptr) : Prop :=
  match p with
  | None => True
  | Some cells => Forall (in_range I32) cells
  end.

(** The [int] members of the parameter struct and the elements of its
    [int] arrays are values of type [int]. *)
Definition int_params (params : Params.t) : Prop :=
  int_array (Params.cu_seqlens_q params)
  /\ int_array (Params.cu_seqlens_k params)
  /\ in_range I32 (Params.seqlen_q params)
  /\ in_range I32 (Params.seqlen_k params)
  /\ in_range I32 (Params.pg_attn_block_tables_batch_stride params)
  /\ in_range I32 (Params.pg_attn_cache_block_stride params).

(** * Facts

    ** Conversions are reductions modulo a power of two *)

Section MachineIntFacts.

Lemma modulus_pos t : 0 < modulus t.
Proof. destruct t; reflexivity. Qed.

Lemma modulus_half t : modulus t = 2 * 2 ^ (bits t - 1).
Proof. destruct t; reflexivity. Qed.

Lemma cast_mod t z : cast t z mod modulus t = z mod modulus t.
Proof.
  unfold cast. cbv zeta.
  destruct (is_signed t && (2 ^ (bits t - 1) <=? z mod modulus t)).
  - rewrite Zminus_mod, Z.mod_same, Z.sub_0_r, !Z.mod_mod;
      pose proof (modulus_pos t); lia.
  - apply Z.mod_mod. pose proof (modulus_pos t); lia.
Qed.

Lemma cast_congr t a b :
  a mod modulus t = b mod modulus t -> cast t a = cast t b.
Proof. unfold cast. intros ->. reflexivity. Qed.

Lemma cast_idem t z : cast t (cast t z) = cast t z.
Proof. apply cast_congr, cast_mod. Qed.

Lemma cast_add_l t a b : cast t (cast t a + b) = cast t (a + b).
Proof.
  apply cast_congr.
  rewrite Zplus_mod, cast_mod, <- Zplus_mod. reflexivity.
Qed.

Lemma cast_add_r t a b : cast t (a + cast t b) = cast t (a + b).
Proof. rewrite Z.add_comm, cast_add_l, Z.add_comm. reflexivity. Qed.

Lemma cast_mul_l t a b : cast t (cast t a * b) = cast t (a * b).
Proof.
  apply cast_congr.
  rewrite Zmult_mod, cast_mod, <- Zmult_mod. reflexivity.
Qed.

Lemma cast_mul_r t a b : cast t (a * cast t b) = cast t (a * b).
Proof. rewrite Z.mul_comm, cast_mul_l, Z.mul_comm. reflexivity. Qed.

Lemma cast_opp t a : cast t (- cast t a) = cast t (- a).
Proof.
  replace (- cast t a) with (cast t a * -1) by ring.
  replace (- a) with (a * -1) by ring.
  apply cast_mul_l.
Qed.

Lemma cast_sub_l t a b : cast t (cast t a - b) = cast t (a - b).
Proof. unfold Z.sub. apply cast_add_l. Qed.

Lemma cast_sub_r t a b : cast t (a - cast t b) = cast t (a - b).
Proof.
  unfold Z.sub. rewrite <- cast_add_r, cast_opp, cast_add_r. reflexivity.
Qed.

Lemma cast_in_range t z : in_range t (cast t z).
Proof.
  unfold cast, in_range. cbv zeta.
  pose proof (Z.mod_pos_bound z (modulus t) (modulus_pos t)) as Hr.
  pose proof (modulus_half t) as Hh.
  destruct (is_signed t); cbn [andb].
  - destruct (Z.leb_spec (2 ^ (bits t - 1)) (z mod modulus t)); lia.
  - lia.
Qed.

Lemma cast_small t z : in_range t z -> cast t z = z.
Proof.
  unfold cast, in_range. cbv zeta.
  pose proof (modulus_pos t) as Hp.
  pose proof (modulus_half t) as Hh.
  destruct (is_signed t); cbn [andb]; intros Hz.
  - destruct (Z_lt_le_dec z 0) as [Hneg | Hnn].
    + assert (Hm : z mod modulus t = z + modulus t).
      { symmetry. apply Z.mod_unique with (q := -1); lia. }
      rewrite Hm.
      destruct (Z.leb_spec (2 ^ (bits t - 1)) (z + modulus t)); lia.
    + rewrite Z.mod_small by lia.
      destruct (Z.leb_spec (2 ^ (bits t - 1)) z); lia.
  - apply Z.mod_small; lia.
Qed.

(** Every type of [int_type] is at least as wide as [int], so a value
    reduced to [t] and then to [int] is the value reduced to [int]. *)
Lemma mod32_cast t z : cast t z mod modulus I32 = z mod modulus I32.
Proof.
  assert (Hd : (modulus I32 | modulus t)).
  { destruct t; [exists 1 | exists 1 | exists (2 ^ 32) | exists (2 ^ 32)];
      reflexivity. }
  rewrite <- (Z.mod_mod_divide (cast t z) _ _ Hd),
          <- (Z.mod_mod_divide z _ _ Hd), cast_mod.
  reflexivity.
Qed.

Lemma int_cast t z : int (cast t z) = int z.
Proof. apply cast_congr, mod32_cast. Qed.

Lemma uint32_t_cast t z : uint32_t (cast t z) = uint32_t z.
Proof. apply cast_congr, (mod32_cast t z). Qed.

Lemma uint32_t_nonneg z : 0 <= z < 2 ^ 32 -> uint32_t z = z.
Proof. intros Hz. apply cast_small. exact Hz. Qed.

Lemma int_exact_in_range t z : in_range I32 z -> int_exact t z.
Proof. intros Hz. unfold int_exact, int. rewrite (cast_small I32) by exact Hz. reflexivity. Qed.

Lemma int_exact_32 t z : bits t = 32 -> int_exact t z.
Proof.
  intros Hb. unfold int_exact, int. apply cast_congr.
  destruct t; try discriminate Hb; apply (cast_mod I32).
Qed.

End MachineIntFacts.

(** ** Reading arrays *)

Section LoadFacts.

Lemma int_small z : - 2 ^ 31 <= z < 2 ^ 31 -> int z = z.
Proof. intros Hz. apply (cast_small I32). exact Hz. Qed.

Lemma load_in_bounds cells i :
  in_bounds (Some cells) i = true -> exists v, load (Some cells) i = Some v.
Proof.
  unfold in_bounds, load. intros Hb.
  apply andb_prop in Hb. destruct Hb as [Hlo Hhi].
  apply Z.leb_le in Hlo. apply Z.ltb_lt in Hhi.
  destruct (Z.ltb_spec i 0) as [Hneg | _]; [lia |].
  destruct (nth_error cells (Z.to_nat i)) as [v |] eqn:Hnth.
  - exists v. reflexivity.
  - apply nth_error_None in Hnth. lia.
Qed.

Lemma in_bounds_pred cells i :
  0 <= i -> in_bounds (Some cells) (i + 1) = true ->
  in_bounds (Some cells) i = true.
Proof.
  unfold in_bounds. intros Hi Hb.
  apply andb_prop in Hb. destruct Hb as [_ Hhi]. apply Z.ltb_lt in Hhi.
  apply andb_true_intro. split; [apply Z.leb_le | apply Z.ltb_lt]; lia.
Qed.

Lemma valid_batch_index_inv params bidb :
  valid_batch_index params bidb = true ->
  0 <= bidb < 2 ^ 31 - 1
  /\ in_bounds (Params.cu_seqlens_q params) (bidb + 1) = true
  /\ in_bounds (Params.cu_seqlens_k params)
               (if Params.is_seqlens_k_cumulative params
                then bidb + 1 else bidb) = true.
Proof.
  unfold valid_batch_index. intros Hv.
  apply andb_prop in Hv. destruct Hv as [Hv Hk].
  apply andb_prop in Hv. destruct Hv as [Hv Hq].
  apply andb_prop in Hv. destruct Hv as [Hlo Hhi].
  apply Z.leb_le in Hlo. apply Z.ltb_lt in Hhi.
  repeat split; assumption.
Qed.

(** Both entries of a cumulative array exist at a valid batch index. *)
Lemma load_cumulative cells bidb :
  0 <= bidb -> in_bounds (Some cells) (bidb + 1) = true ->
  exists lo hi, load (Some cells) bidb = Some lo
                /\ load (Some cells) (bidb + 1) = Some hi.
Proof.
  intros Hb Hin.
  destruct (load_in_bounds cells bidb (in_bounds_pred _ _ Hb Hin)) as [lo Hlo].
  destruct (load_in_bounds cells (bidb + 1) Hin) as [hi Hhi].
  exists lo, hi. split; assumption.
Qed.

End LoadFacts.

(** ** The constructor *)

(** Case analysis on every array read that a goal sequences. *)
Ltac destruct_binds :=
  repeat match goal with
         | |- context [bind ?m _] => destruct m; cbn [bind option_map]
         end.

Section Constructor.

Import BlockInfo.

(** With [Varlen = false] nothing is read and the fixed lengths are used,
    whatever the configuration holds. *)
Lemma BlockInfo_fixed_length params bidb u :
  BlockInfo false params bidb u =
  Some {| sum_s_q := -1;
          sum_s_k := -1;
          actual_seqlen_q := Params.seqlen_q params;
          seqlen_k_cache := Params.seqlen_k params;
          actual_seqlen_k :=
            int (Params.seqlen_k params
                 + (if is_nullptr (Params.knew_ptr params) then 0
                    else Params.seqlen_knew params));
          pg_attn_block_tables_ptr := Params.pg_attn_block_tables_ptr params;
          pg_attn_block_batch_stride :=
            Params.pg_attn_block_tables_batch_stride params;
          pg_attn_cache_block_stride :=
            Params.pg_attn_cache_block_stride params;
          actual_batch_size := u |}.
Proof. reflexivity. Qed.

(** At a valid batch index the [Varlen = true] constructor is defined,
    and each member is what its initialiser says. *)
Lemma BlockInfo_valid params bidb u :
  valid_batch_index params bidb = true ->
  exists self,
    BlockInfo true params bidb u = Some self
    /\ match Params.cu_seqlens_q params with
       | None =>
           sum_s_q self = -1 /\ actual_seqlen_q self = Params.seqlen_q params
       | Some cells =>
           exists lo hi,
             load (Some cells) bidb = Some lo
             /\ load (Some cells) (bidb + 1) = Some hi
             /\ sum_s_q self = lo
             /\ actual_seqlen_q self = int (hi - sum_s_q self)
       end
    /\ match Params.cu_seqlens_k params with
       | None =>
           sum_s_k self = -1 /\ seqlen_k_cache self = Params.seqlen_k params
       | Some cells =>
           if Params.is_seqlens_k_cumulative params then
             exists lo hi,
               load (Some cells) bidb = Some lo
               /\ load (Some cells) (bidb + 1) = Some hi
               /\ sum_s_k self = lo
               /\ seqlen_k_cache self = int (hi - sum_s_k self)
           else
             sum_s_k self = -1
             /\ load (Some cells) bidb = Some (seqlen_k_cache self)
       end
    /\ actual_seqlen_k self =
       int (seqlen_k_cache self
            + (if is_nullptr (Params.knew_ptr params) then 0
               else Params.seqlen_knew params)).
Proof.
  intros Hv. apply valid_batch_index_inv in Hv.
  destruct Hv as (Hb & Hq & Hk).
  assert (Hnext : int (bidb + 1) = bidb + 1) by (apply int_small; lia).
  unfold BlockInfo. cbv zeta. rewrite Hnext.
  destruct (Params.cu_seqlens_q params) as [cq |].
  - destruct (load_cumulative cq bidb (proj1 Hb) Hq) as (qlo & qhi & Hqlo & Hqhi).
    destruct (Params.cu_seqlens_k params) as [ck |].
    + destruct (Params.is_seqlens_k_cumulative params).
      * destruct (load_cumulative ck bidb (proj1 Hb) Hk)
          as (klo & khi & Hklo & Hkhi).
        cbn [negb orb is_nullptr]. rewrite Hqlo, Hqhi, Hklo, Hkhi.
        cbn [bind]. eexists. split; [reflexivity |]. cbn.
        repeat split; try reflexivity;
          eexists; eexists; repeat split; reflexivity.
      * destruct (load_in_bounds ck bidb Hk) as [len Hlen].
        cbn [negb orb is_nullptr]. rewrite Hqlo, Hqhi, Hlen.
        cbn [bind]. eexists. split; [reflexivity |]. cbn.
        repeat split; try reflexivity.
        eexists; eexists; repeat split; reflexivity.
    + cbn [negb orb is_nullptr]. rewrite Hqlo, Hqhi.
      cbn [bind]. eexists. split; [reflexivity |]. cbn.
      repeat split; try reflexivity.
      eexists; eexists; repeat split; reflexivity.
  - destruct (Params.cu_seqlens_k params) as [ck |].
    + destruct (Params.is_seqlens_k_cumulative params).
      * destruct (load_cumulative ck bidb (proj1 Hb) Hk)
          as (klo & khi & Hklo & Hkhi).
        cbn [negb orb is_nullptr]. rewrite Hklo, Hkhi.
        cbn [bind]. eexists. split; [reflexivity |]. cbn.
        repeat split; try reflexivity.
        eexists; eexists; repeat split; reflexivity.
      * destruct (load_in_bounds ck bidb Hk) as [len Hlen].
        cbn [negb orb is_nullptr]. rewrite Hlen.
        cbn [bind]. eexists. split; [reflexivity |]. cbn.
        repeat split; reflexivity.
    + cbn [negb orb is_nullptr bind]. eexists. split; [reflexivity |]. cbn.
      repeat split; reflexivity.
Qed.

(** Replacing the [actual_batch_size] of the configuration changes
    nothing: the constructor does not mention it. *)
Lemma BlockInfo_set_actual_batch_size Varlen params a bidb u :
  BlockInfo Varlen (Params.set_actual_batch_size a params) bidb u =
  BlockInfo Varlen params bidb u.
Proof. reflexivity. Qed.

(** The uninitialised member has no part in the initialised ones. *)
Lemma BlockInfo_indeterminate Varlen params bidb u1 u2 :
  option_map constructed (BlockInfo Varlen params bidb u1) =
  option_map constructed (BlockInfo Varlen params bidb u2).
Proof.
  unfold BlockInfo. cbv zeta. destruct_binds; reflexivity.
Qed.

End Constructor.

(** ** Sequence lengths resolved by the constructor *)

Section SequenceLengths.

Import BlockInfo.

(** C1, as stated, fails in the [Varlen = false] instantiation: with the
    key array [0; 8; 8] present and holding lengths, the constructor at
    batch index 1 sets [seqlen_k_cache] to the fixed length 100 of the
    configuration, where the claim gives the array entry 8. *)
Lemma C1_counterexample :
  Params.cu_seqlens_k (varlen_params [0; 5; 12] [0; 8; 8] false)
    = Some [0; 8; 8]
  /\ Params.is_seqlens_k_cumulative (varlen_params [0; 5; 12] [0; 8; 8] false)
     = false
  /\ load (Params.cu_seqlens_k (varlen_params [0; 5; 12] [0; 8; 8] false)) 1
     = Some 8
  /\ option_map seqlen_k_cache
       (BlockInfo false (varlen_params [0; 5; 12] [0; 8; 8] false) 1 nullptr)
     = Some 100
  /\ option_map seqlen_k_cache
       (BlockInfo false (varlen_params [0; 5; 12] [0; 8; 8] false) 1 nullptr)
     <> load (Params.cu_seqlens_k (varlen_params [0; 5; 12] [0; 8; 8] false)) 1.
Proof. repeat split. discriminate. Qed.

(** C1 (amended).  In the [Varlen = true] instantiation, at every valid
    batch index, [seqlen_k_cache] is [seqlen_k] when [cu_seqlens_k] is
    null; otherwise, when [is_seqlens_k_cumulative], it is
    [cu_seqlens_k[bidb + 1] - sum_s_k] with [sum_s_k = cu_seqlens_k[bidb]];
    otherwise it is the entry [cu_seqlens_k[bidb]] itself.  In the
    [Varlen = false] instantiation it is [seqlen_k] whatever the array. *)
Theorem C1_cached_key_length (Varlen : bool) params bidb u :
  (Varlen = true -> valid_batch_index params bidb = true) ->
  exists self,
    BlockInfo Varlen params bidb u = Some self
    /\ if Varlen then
         match Params.cu_seqlens_k params with
         | None => seqlen_k_cache self = Params.seqlen_k params
         | Some cells =>
             if Params.is_seqlens_k_cumulative params then
               exists lo hi,
                 load (Some cells) bidb = Some lo
                 /\ load (Some cells) (bidb + 1) = Some hi
                 /\ sum_s_k self = lo
                 /\ seqlen_k_cache self = int (hi - sum_s_k self)
             else load (Some cells) bidb = Some (seqlen_k_cache self)
         end
       else seqlen_k_cache self = Params.seqlen_k params.
Proof.
  destruct Varlen; intros Hv.
  - destruct (BlockInfo_valid params bidb u (Hv eq_refl))
      as (self & Hself & _ & Hk & _).
    exists self. split; [exact Hself |].
    destruct (Params.cu_seqlens_k params) as [cells |].
    + destruct (Params.is_seqlens_k_cumulative params).
      * exact Hk.
      * exact (proj2 Hk).
    + exact (proj2 Hk).
  - rewrite BlockInfo_fixed_length. eexists. split; reflexivity.
Qed.

(** The scenario of C1: the array [0; 8; 8] read as lengths gives 8 at
    batch index 1. *)
Lemma C1_cached_key_length_witness :
  valid_batch_index (varlen_params [0; 5; 12] [0; 8; 8] false) 1 = true
  /\ exists self,
       BlockInfo true (varlen_params [0; 5; 12] [0; 8; 8] false) 1 nullptr
         = Some self
       /\ seqlen_k_cache self = 8.
Proof.
  split; [reflexivity |].
  destruct (C1_cached_key_length true
              (varlen_params [0; 5; 12] [0; 8; 8] false) 1 nullptr
              (fun _ => eq_refl)) as (self & Hself & Hlen).
  exists self. split; [exact Hself |].
  cbn in Hlen. injection Hlen as Hlen. symmetry. exact Hlen.
Defined.

(** C4, as stated, fails in the [Varlen = false] instantiation: with the
    query array [0; 5; 12] present, the constructor at batch index 0 sets
    [actual_seqlen_q] to the fixed length 16 of the configuration, where
    the claim gives [5 - 0 = 5]. *)
Lemma C4_counterexample :
  Params.cu_seqlens_q (varlen_params [0; 5; 12] [0; 8; 8] true)
    = Some [0; 5; 12]
  /\ option_map actual_seqlen_q
       (BlockInfo false (varlen_params [0; 5; 12] [0; 8; 8] true) 0 nullptr)
     = Some 16
  /\ option_map actual_seqlen_q
       (BlockInfo false (varlen_params [0; 5; 12] [0; 8; 8] true) 0 nullptr)
     <> Some (int (5 - 0)).
Proof. repeat split. discriminate. Qed.

(** C4 (amended).  In the [Varlen = true] instantiation, at every valid
    batch index, [actual_seqlen_q] is [seqlen_q] when [cu_seqlens_q] is
    null and [cu_seqlens_q[bidb + 1] - cu_seqlens_q[bidb]] otherwise.  In
    the [Varlen = false] instantiation it is [seqlen_q] whatever the
    array. *)
Theorem C4_actual_query_length (Varlen : bool) params bidb u :
  (Varlen = true -> valid_batch_index params bidb = true) ->
  exists self,
    BlockInfo Varlen params bidb u = Some self
    /\ if Varlen then
         match Params.cu_seqlens_q params with
         | None => actual_seqlen_q self = Params.seqlen_q params
         | Some cells =>
             exists lo hi,
               load (Some cells) bidb = Some lo
               /\ load (Some cells) (bidb + 1) = Some hi
               /\ actual_seqlen_q self = int (hi - lo)
         end
       else actual_seqlen_q self = Params.seqlen_q params.
Proof.
  destruct Varlen; intros Hv.
  - destruct (BlockInfo_valid params bidb u (Hv eq_refl))
      as (self & Hself & Hq & _).
    exists self. split; [exact Hself |].
    destruct (Params.cu_seqlens_q params) as [cells |].
    + destruct Hq as (lo & hi & Hlo & Hhi & Hsum & Hlen).
      exists lo, hi. rewrite Hsum in Hlen. repeat split; assumption.
    + exact (proj2 Hq).
  - rewrite BlockInfo_fixed_length. eexists. split; reflexivity.
Qed.

(** The scenario of C4: the offsets [0; 5; 12] give the query lengths 5
    and 7 at the batch indices 0 and 1. *)
Lemma C4_actual_query_length_witness :
  valid_batch_index (varlen_params [0; 5; 12] [0; 8; 8] true) 0 = true
  /\ valid_batch_index (varlen_params [0; 5; 12] [0; 8; 8] true) 1 = true
  /\ (exists self,
        BlockInfo true (varlen_params [0; 5; 12] [0; 8; 8] true) 0 nullptr
          = Some self
        /\ actual_seqlen_q self = 5)
  /\ (exists self,
        BlockInfo true (varlen_params [0; 5; 12] [0; 8; 8] true) 1 nullptr
          = Some self
        /\ actual_seqlen_q self = 7).
Proof.
  split; [reflexivity |]. split; [reflexivity |]. split.
  - destruct (C4_actual_query_length true
                (varlen_params [0; 5; 12] [0; 8; 8] true) 0 nullptr
                (fun _ => eq_refl))
      as (self & Hself & lo & hi & Hlo & Hhi & Hlen).
    exists self. split; [exact Hself |].
    injection Hlo as <-. injection Hhi as <-. exact Hlen.
  - destruct (C4_actual_query_length true
                (varlen_params [0; 5; 12] [0; 8; 8] true) 1 nullptr
                (fun _ => eq_refl))
      as (self & Hself & lo & hi & Hlo & Hhi & Hlen).
    exists self. split; [exact Hself |].
    injection Hlo as <-. injection Hhi as <-. exact Hlen.
Defined.

(** C6.  In every instantiation and for every configuration, at every
    valid batch index, [actual_seqlen_k] is [seqlen_k_cache] plus
    [seqlen_knew], the latter counted as 0 when [knew_ptr] is null. *)
Theorem C6_total_key_length (Varlen : bool) params bidb u :
  (Varlen = true -> valid_batch_index params bidb = true) ->
  exists self,
    BlockInfo Varlen params bidb u = Some self
    /\ actual_seqlen_k self =
       int (seqlen_k_cache self
            + match Params.knew_ptr params with
              | None => 0
              | Some _ => Params.seqlen_knew params
              end).
Proof.
  destruct Varlen; intros Hv.
  - destruct (BlockInfo_valid params bidb u (Hv eq_refl))
      as (self & Hself & _ & _ & Htotal).
    exists self. split; [exact Hself |].
    rewrite Htotal. destruct (Params.knew_ptr params); reflexivity.
  - rewrite BlockInfo_fixed_length. eexists. split; [reflexivity |].
    cbn [actual_seqlen_k seqlen_k_cache].
    destruct (Params.knew_ptr params); reflexivity.
Qed.

(** The cumulative key offsets [0; 8; 8] with 4 new keys: batch index 0
    has 8 cached keys and 12 in total. *)
Lemma C6_total_key_length_witness :
  valid_batch_index (varlen_params [0; 5; 12] [0; 8; 8] true) 0 = true
  /\ exists self,
       BlockInfo true (varlen_params [0; 5; 12] [0; 8; 8] true) 0 nullptr
         = Some self
       /\ actual_seqlen_k self = int (seqlen_k_cache self + 4).
Proof.
  split; [reflexivity |].
  exact (C6_total_key_length true (varlen_params [0; 5; 12] [0; 8; 8] true)
                             0 nullptr (fun _ => eq_refl)).
Defined.

End SequenceLengths.

(** ** Which interpretation applies, and what is never read *)

Section Interpretation.

Import BlockInfo.

(** With the array of a sequence kind absent, a [Varlen = true] instance
    has the sentinel and the fixed length of that kind. *)
Lemma BlockInfo_padded_q params bidb u self :
  Params.cu_seqlens_q params = nullptr ->
  BlockInfo true params bidb u = Some self ->
  sum_s_q self = -1 /\ actual_seqlen_q self = Params.seqlen_q params.
Proof.
  intros Hq. unfold BlockInfo. cbv zeta. rewrite Hq.
  cbn [negb orb is_nullptr nullptr bind].
  destruct_binds; intros Hself; inversion Hself; split; reflexivity.
Qed.

Lemma BlockInfo_padded_k params bidb u self :
  Params.cu_seqlens_k params = nullptr ->
  BlockInfo true params bidb u = Some self ->
  sum_s_k self = -1 /\ seqlen_k_cache self = Params.seqlen_k params.
Proof.
  intros Hk. unfold BlockInfo. cbv zeta. rewrite Hk.
  cbn [negb orb is_nullptr nullptr bind].
  destruct_binds; intros Hself; inversion Hself; split; reflexivity.
Qed.

(** C9, as stated, fails in the [Varlen = false] instantiation: the query
    array [0; 5; 12] is present, and two configurations that differ in
    nothing but the fixed length [seqlen_q] (16 and 32) are given the
    different query lengths 16 and 32. *)
Lemma C9_counterexample :
  Params.cu_seqlens_q
    (Params.set_seqlen_q 32 (varlen_params [0; 5; 12] [0; 8; 8] true))
    = Some [0; 5; 12]
  /\ option_map actual_seqlen_q
       (BlockInfo false
          (Params.set_seqlen_q 16 (varlen_params [0; 5; 12] [0; 8; 8] true))
          0 nullptr)
     = Some 16
  /\ option_map actual_seqlen_q
       (BlockInfo false
          (Params.set_seqlen_q 32 (varlen_params [0; 5; 12] [0; 8; 8] true))
          0 nullptr)
     = Some 32
  /\ BlockInfo false
       (Params.set_seqlen_q 16 (varlen_params [0; 5; 12] [0; 8; 8] true))
       0 nullptr
     <> BlockInfo false
          (Params.set_seqlen_q 32 (varlen_params [0; 5; 12] [0; 8; 8] true))
          0 nullptr.
Proof. repeat split. discriminate. Qed.

(** With the query array present, a [Varlen = true] instance has read
    both of its entries. *)
Lemma BlockInfo_packed_q params bidb u cells self :
  Params.cu_seqlens_q params = Some cells ->
  BlockInfo true params bidb u = Some self ->
  exists lo hi,
    load (Some cells) bidb = Some lo
    /\ load (Some cells) (int (bidb + 1)) = Some hi
    /\ sum_s_q self = lo
    /\ actual_seqlen_q self = int (hi - lo).
Proof.
  intros Hq. unfold BlockInfo. cbv zeta. rewrite Hq.
  cbn [negb orb is_nullptr bind].
  repeat match goal with
         | |- context [bind (load ?p ?i) _] =>
             destruct (load p i); cbn [bind]; [| discriminate]
         | |- context [bind ?m _] =>
             destruct m; cbn [bind]; [| discriminate]
         end.
  intros Hself; injection Hself as <-.
  cbn [sum_s_q actual_seqlen_q]. eexists. eexists. repeat split.
Qed.

(** With the key array present, [is_seqlens_k_cumulative] selects what
    a [Varlen = true] instance has read: two cumulative offsets, or one
    length beside the sentinel. *)
Lemma BlockInfo_packed_k params bidb u cells self :
  Params.cu_seqlens_k params = Some cells ->
  BlockInfo true params bidb u = Some self ->
  if Params.is_seqlens_k_cumulative params then
    exists lo hi,
      load (Some cells) bidb = Some lo
      /\ load (Some cells) (int (bidb + 1)) = Some hi
      /\ sum_s_k self = lo
      /\ seqlen_k_cache self = int (hi - lo)
  else
    sum_s_k self = -1
    /\ load (Some cells) bidb = Some (seqlen_k_cache self).
Proof.
  intros Hk. unfold BlockInfo. cbv zeta. rewrite Hk.
  destruct (Params.is_seqlens_k_cumulative params);
    cbn [negb orb is_nullptr bind];
    repeat match goal with
           | |- context [bind (load ?p ?i) _] =>
               destruct (load p i); cbn [bind]; [| discriminate]
           | |- context [bind ?m _] =>
               destruct m; cbn [bind]; [| discriminate]
           end;
    intros Hself; injection Hself as <-; cbn [sum_s_k seqlen_k_cache].
  - eexists. eexists. repeat split.
  - split; reflexivity.
Qed.

(** The constructor is defined exactly when the reads of the arrays that
    are present are: an absent array asks for nothing. *)
Lemma BlockInfo_defined_iff params bidb u :
  (exists self, BlockInfo true params bidb u = Some self)
  <-> (forall cells,
          Params.cu_seqlens_q params = Some cells ->
          load (Some cells) bidb <> None
          /\ load (Some cells) (int (bidb + 1)) <> None)
      /\ (forall cells,
            Params.cu_seqlens_k params = Some cells ->
            load (Some cells) bidb <> None
            /\ (Params.is_seqlens_k_cumulative params = true ->
                load (Some cells) (int (bidb + 1)) <> None)).
Proof.
  split.
  - intros [self Hself]. split.
    + intros cells Hq.
      destruct (BlockInfo_packed_q params bidb u cells self Hq Hself)
        as (lo & hi & Hlo & Hhi & _).
      rewrite Hlo, Hhi. split; discriminate.
    + intros cells Hk.
      pose proof (BlockInfo_packed_k params bidb u cells self Hk Hself) as Hm.
      destruct (Params.is_seqlens_k_cumulative params).
      * destruct Hm as (lo & hi & Hlo & Hhi & _).
        rewrite Hlo, Hhi. split; [discriminate | intros _; discriminate].
      * destruct Hm as [_ Hlen]. rewrite Hlen.
        split; [discriminate | intros Hc; discriminate Hc].
  - intros [Hq Hk]. unfold BlockInfo. cbv zeta.
    destruct (Params.cu_seqlens_q params) as [cq |].
    + destruct (Hq cq eq_refl) as [Hqlo Hqhi].
      destruct (load (Some cq) bidb) as [qlo |]; [| contradiction].
      destruct (load (Some cq) (int (bidb + 1))) as [qhi |];
        [| contradiction].
      destruct (Params.cu_seqlens_k params) as [ck |].
      * destruct (Hk ck eq_refl) as [Hklo Hkhi].
        destruct (load (Some ck) bidb) as [klo |]; [| contradiction].
        destruct (Params.is_seqlens_k_cumulative params).
        -- specialize (Hkhi eq_refl).
           destruct (load (Some ck) (int (bidb + 1))) as [khi |];
             [| contradiction].
           cbn [negb orb is_nullptr bind]. eexists. reflexivity.
        -- cbn [negb orb is_nullptr bind]. eexists. reflexivity.
      * cbn [negb orb is_nullptr bind]. eexists. reflexivity.
    + destruct (Params.cu_seqlens_k params) as [ck |].
      * destruct (Hk ck eq_refl) as [Hklo Hkhi].
        destruct (load (Some ck) bidb) as [klo |]; [| contradiction].
        destruct (Params.is_seqlens_k_cumulative params).
        -- specialize (Hkhi eq_refl).
           destruct (load (Some ck) (int (bidb + 1))) as [khi |];
             [| contradiction].
           cbn [negb orb is_nullptr bind]. eexists. reflexivity.
        -- cbn [negb orb is_nullptr bind]. eexists. reflexivity.
      * cbn [negb orb is_nullptr bind]. eexists. reflexivity.
Qed.

(** C9 (amended).  In the [Varlen = true] instantiation the presence of
    the array of a sequence kind alone selects between the fixed-length
    and the packed interpretation of that kind.
    - With the array present the fixed length of the kind has no
      influence on the instance, and the instance holds what was read
      from the array: for the queries the offset and the difference of
      two offsets; for the keys, as [is_seqlens_k_cumulative] says,
      either the same, or the sentinel -1 and the entry itself as the
      length.
    - With the array absent the instance has the sentinel -1 and the
      fixed length of the kind, and the array is not read: the
      constructor is defined exactly when the reads of the arrays that
      are present are, whatever the other array is, and at every batch
      index whatsoever when both are absent.
    In the [Varlen = false] instantiation the fixed-length
    interpretation applies to both kinds at every batch index, arrays
    present or not, and nothing is read. *)
Theorem C9_padded_or_packed params bidb u n :
  (Params.cu_seqlens_q params <> nullptr ->
   BlockInfo true (Params.set_seqlen_q n params) bidb u
   = BlockInfo true params bidb u)
  /\ (Params.cu_seqlens_k params <> nullptr ->
      BlockInfo true (Params.set_seqlen_k n params) bidb u
      = BlockInfo true params bidb u)
  /\ (Params.cu_seqlens_q params = nullptr ->
      forall self, BlockInfo true params bidb u = Some self ->
                   sum_s_q self = -1
                   /\ actual_seqlen_q self = Params.seqlen_q params)
  /\ (Params.cu_seqlens_k params = nullptr ->
      forall self, BlockInfo true params bidb u = Some self ->
                   sum_s_k self = -1
                   /\ seqlen_k_cache self = Params.seqlen_k params)
  /\ (forall cells self,
        Params.cu_seqlens_q params = Some cells ->
        BlockInfo true params bidb u = Some self ->
        exists lo hi,
          load (Some cells) bidb = Some lo
          /\ load (Some cells) (int (bidb + 1)) = Some hi
          /\ sum_s_q self = lo
          /\ actual_seqlen_q self = int (hi - lo))
  /\ (forall cells self,
        Params.cu_seqlens_k params = Some cells ->
        BlockInfo true params bidb u = Some self ->
        if Params.is_seqlens_k_cumulative params then
          exists lo hi,
            load (Some cells) bidb = Some lo
            /\ load (Some cells) (int (bidb + 1)) = Some hi
            /\ sum_s_k self = lo
            /\ seqlen_k_cache self = int (hi - lo)
        else
          sum_s_k self = -1
          /\ load (Some cells) bidb = Some (seqlen_k_cache self))
  /\ ((exists self, BlockInfo true params bidb u = Some self)
      <-> (forall cells,
              Params.cu_seqlens_q params = Some cells ->
              load (Some cells) bidb <> None
              /\ load (Some cells) (int (bidb + 1)) <> None)
          /\ (forall cells,
                Params.cu_seqlens_k params = Some cells ->
                load (Some cells) bidb <> None
                /\ (Params.is_seqlens_k_cumulative params = true ->
                    load (Some cells) (int (bidb + 1)) <> None)))
  /\ (Params.cu_seqlens_q params = nullptr ->
      Params.cu_seqlens_k params = nullptr ->
      exists self, BlockInfo true params bidb u = Some self)
  /\ (exists self,
        BlockInfo false params bidb u = Some self
        /\ sum_s_q self = -1 /\ sum_s_k self = -1
        /\ actual_seqlen_q self = Params.seqlen_q params
        /\ seqlen_k_cache self = Params.seqlen_k params).
Proof.
  split; [| split; [| split; [| split; [| split; [| split;
    [| split; [| split]]]]]]].
  - intros Hq. unfold BlockInfo, Params.set_seqlen_q. cbv zeta.
    cbn [Params.cu_seqlens_q Params.cu_seqlens_k
         Params.is_seqlens_k_cumulative Params.seqlen_q Params.seqlen_k
         Params.knew_ptr Params.seqlen_knew Params.pg_attn_block_tables_ptr
         Params.pg_attn_block_tables_batch_stride
         Params.pg_attn_cache_block_stride].
    destruct (Params.cu_seqlens_q params) as [cells |]; [| contradiction].
    reflexivity.
  - intros Hk. unfold BlockInfo, Params.set_seqlen_k. cbv zeta.
    cbn [Params.cu_seqlens_q Params.cu_seqlens_k
         Params.is_seqlens_k_cumulative Params.seqlen_q Params.seqlen_k
         Params.knew_ptr Params.seqlen_knew Params.pg_attn_block_tables_ptr
         Params.pg_attn_block_tables_batch_stride
         Params.pg_attn_cache_block_stride].
    destruct (Params.cu_seqlens_k params) as [cells |]; [| contradiction].
    reflexivity.
  - intros Hq self. apply BlockInfo_padded_q. exact Hq.
  - intros Hk self. apply BlockInfo_padded_k. exact Hk.
  - intros cells self. apply BlockInfo_packed_q.
  - intros cells self. apply BlockInfo_packed_k.
  - apply BlockInfo_defined_iff.
  - intros Hq Hk. apply BlockInfo_defined_iff.
    rewrite Hq, Hk. split; intros cells Hsome; discriminate Hsome.
  - rewrite BlockInfo_fixed_length. eexists. repeat split.
Qed.

(** Both arrays present; both absent, at a batch index no array could
    have; and the query array absent beside a key array of lengths
    [3; 9], whose entry 1 is read while no query entry is. *)
Lemma C9_padded_or_packed_witness :
  (BlockInfo true
     (Params.set_seqlen_q 32 (varlen_params [0; 5; 12] [0; 8; 8] true))
     1 nullptr
   = BlockInfo true (varlen_params [0; 5; 12] [0; 8; 8] true) 1 nullptr)
  /\ (exists self, BlockInfo true padded_params (-7) nullptr = Some self)
  /\ (exists self,
        BlockInfo true (keys_only_params [3; 9] false) 1 nullptr = Some self
        /\ sum_s_q self = -1
        /\ actual_seqlen_q self = 16
        /\ sum_s_k self = -1
        /\ load (Some [3; 9]) 1 = Some (seqlen_k_cache self)).
Proof.
  split; [| split].
  - apply (C9_padded_or_packed (varlen_params [0; 5; 12] [0; 8; 8] true)
                               1 nullptr 32).
    discriminate.
  - apply (C9_padded_or_packed padded_params (-7) nullptr 0); reflexivity.
  - destruct (C9_padded_or_packed (keys_only_params [3; 9] false)
                                  1 nullptr 0)
      as (_ & _ & Hq & _ & _ & Hk & Hdef & _).
    destruct Hdef as [_ Hdef].
    destruct Hdef as [self Hself].
    { split.
      - intros cells Hsome. discriminate Hsome.
      - intros cells Hsome. injection Hsome as <-.
        split; [discriminate | intros Hc; discriminate Hc]. }
    exists self. split; [exact Hself |].
    destruct (Hq eq_refl self Hself) as [Hsum Hlen].
    destruct (Hk [3; 9] self eq_refl Hself) as [Hsum_k Hlen_k].
    repeat split; assumption.
Defined.

(** C10.  [actual_batch_size] has no part in the construction or in any
    accessor: two configurations that differ in nothing but that member,
    whatever the uninitialised member of the two instances holds, give
    the same initialised members and the same results of [q_offset],
    [k_offset], [k_offset_pg] and [k_advance_offset_pg]. *)
Theorem C10_actual_batch_size_unused
        (Varlen : bool) params bidb a u1 u2
        (index_t : int_type)
        (batch_stride row_stride bidb' block_id k_block_n : Z) :
  let c1 := BlockInfo Varlen params bidb u1 in
  let c2 := BlockInfo Varlen (Params.set_actual_batch_size a params) bidb u2 in
  option_map constructed c1 = option_map constructed c2
  /\ option_map (fun s => q_offset index_t s batch_stride row_stride bidb') c1
     = option_map (fun s => q_offset index_t s batch_stride row_stride bidb') c2
  /\ option_map (fun s => k_offset index_t s batch_stride row_stride bidb') c1
     = option_map (fun s => k_offset index_t s batch_stride row_stride bidb') c2
  /\ (s <- c1 ;;
      k_offset_pg index_t s batch_stride row_stride bidb' block_id k_block_n)
     = (s <- c2 ;;
        k_offset_pg index_t s batch_stride row_stride bidb' block_id k_block_n)
  /\ (s <- c1 ;;
      k_advance_offset_pg index_t s bidb' block_id row_stride k_block_n)
     = (s <- c2 ;;
        k_advance_offset_pg index_t s bidb' block_id row_stride k_block_n).
Proof.
  cbv zeta. rewrite BlockInfo_set_actual_batch_size.
  pose proof (BlockInfo_indeterminate Varlen params bidb u1 u2) as Hc.
  destruct (BlockInfo Varlen params bidb u1) as [s1 |],
           (BlockInfo Varlen params bidb u2) as [s2 |];
    try discriminate Hc; [| repeat split].
  cbn [option_map bind] in *.
  injection Hc as Hsq Hsk Haq Hkc Hak Htbl Hbs Hcs.
  unfold q_offset, k_offset, k_offset_pg, k_advance_offset_pg,
    block_table_entry, table_index, k_offset.
  rewrite Hsq, Hsk, Htbl, Hbs, Hcs.
  repeat split; (try rewrite Haq); (try rewrite Hkc); (try rewrite Hak);
    try reflexivity.
  unfold constructed. congruence.
Qed.

End Interpretation.

(** ** Row offsets *)

Section RowOffsets.

Import BlockInfo.

(** For a 32-bit [index_t] the reinterpretation of an [int] as
    [uint32_t] is invisible in a product. *)
Lemma cast_uint32_t_mul t x y :
  bits t = 32 -> cast t (uint32_t x * y) = cast t (x * y).
Proof.
  intros Hb. apply cast_congr.
  assert (Hm : modulus t = modulus U32)
    by (destruct t; try discriminate Hb; reflexivity).
  rewrite Hm. unfold uint32_t.
  rewrite Zmult_mod, cast_mod, <- Zmult_mod. reflexivity.
Qed.

(** C5, as stated, fails for a 64-bit [index_t] and a negative base
    offset other than the sentinel: with [cu_seqlens_q = [-2; 0]] the
    instance of batch index 0 has [sum_s_q = -2], and [q_offset] with
    [row_stride = 1] returns [uint32_t(-2) * 1 = 4294967294], where the
    claim gives [-2 * 1 = -2]. *)
Lemma C5_counterexample :
  exists self,
    BlockInfo true (varlen_params [-2; 0] [0; 0] true) 0 nullptr = Some self
    /\ sum_s_q self = -2
    /\ q_offset I64 self 0 1 0 = 4294967294
    /\ q_offset I64 self 0 1 0 <> cast I64 (sum_s_q self * 1).
Proof.
  eexists. split; [reflexivity |]. repeat split. discriminate.
Qed.

(** C5 (amended).  [q_offset] returns [bidb * batch_stride] when
    [sum_s_q] is -1 and [uint32_t(sum_s_q) * row_stride] otherwise, the
    products taken in [index_t]; the latter is [sum_s_q * row_stride]
    when [sum_s_q] is not negative, and for every [sum_s_q] when
    [index_t] is 32 bits wide.  [k_offset] does the same with [sum_s_k].
    Both are total: there is no undefined result. *)
Theorem C5_row_offsets (index_t : int_type) self batch_stride row_stride bidb :
  q_offset index_t self batch_stride row_stride bidb
  = (if sum_s_q self =? -1 then cast index_t (bidb * batch_stride)
     else cast index_t (uint32_t (sum_s_q self) * row_stride))
  /\ k_offset index_t self batch_stride row_stride bidb
     = (if sum_s_k self =? -1 then cast index_t (bidb * batch_stride)
        else cast index_t (uint32_t (sum_s_k self) * row_stride))
  /\ (sum_s_q self <> -1 ->
      0 <= sum_s_q self < 2 ^ 31 \/ bits index_t = 32 ->
      q_offset index_t self batch_stride row_stride bidb
      = cast index_t (sum_s_q self * row_stride))
  /\ (sum_s_k self <> -1 ->
      0 <= sum_s_k self < 2 ^ 31 \/ bits index_t = 32 ->
      k_offset index_t self batch_stride row_stride bidb
      = cast index_t (sum_s_k self * row_stride)).
Proof.
  split; [reflexivity |]. split; [reflexivity |].
  unfold q_offset, k_offset. split; intros Hs Hr.
  - apply Z.eqb_neq in Hs. rewrite Hs. destruct Hr as [Hr | Hr].
    + rewrite uint32_t_nonneg by lia. reflexivity.
    + apply cast_uint32_t_mul. exact Hr.
  - apply Z.eqb_neq in Hs. rewrite Hs. destruct Hr as [Hr | Hr].
    + rewrite uint32_t_nonneg by lia. reflexivity.
    + apply cast_uint32_t_mul. exact Hr.
Qed.

(** The second packed query sequence starts at element 5: its rows start
    at [5 * row_stride], here with 64-bit offsets and rows of 128
    elements. *)
Lemma C5_row_offsets_witness :
  exists self,
    BlockInfo true (varlen_params [0; 5; 12] [0; 8; 8] true) 1 nullptr
      = Some self
    /\ sum_s_q self = 5
    /\ q_offset I64 self 4096 128 1 = cast I64 (sum_s_q self * 128).
Proof.
  eexists. split; [reflexivity |]. split; [reflexivity |].
  apply C5_row_offsets.
  - discriminate.
  - left. cbn. lia.
Defined.

End RowOffsets.

(** ** Paged offsets *)

Section PagedOffsets.

Import BlockInfo.

Lemma int_opp_cast t z : int (- cast t z) = int (- z).
Proof.
  replace (- cast t z) with (cast t z * -1) by ring.
  replace (- z) with (z * -1) by ring.
  apply cast_congr.
  rewrite Zmult_mod, mod32_cast, <- Zmult_mod. reflexivity.
Qed.

(** The delta of the contiguous cache, without the intermediate
    conversions. *)
Lemma contiguous_delta t k_block_n row_stride :
  int (- int (cast t (k_block_n * row_stride)))
  = int (- (k_block_n * row_stride)).
Proof.
  unfold int at 1 2. rewrite cast_opp. fold (int (- cast t (k_block_n * row_stride))).
  apply int_opp_cast.
Qed.

(** The delta of the paged cache is the difference of the two table
    entries times the page stride. *)
Lemma paged_delta prev cur stride :
  int (int (prev * stride) - int (cur * stride))
  = int ((prev - cur) * stride).
Proof.
  unfold int. rewrite cast_sub_l, cast_sub_r. f_equal. ring.
Qed.

(** The index of the preceding page, as [k_advance_offset_pg] writes it,
    is the index of page [current_block_id - 1]. *)
Lemma table_index_pred self bidb current_block_id :
  int (table_index self bidb current_block_id - 1)
  = table_index self bidb (current_block_id - 1).
Proof.
  unfold table_index, int. rewrite cast_sub_l. f_equal. ring.
Qed.

(** C2.  With no block table, [k_offset_pg] returns
    [k_offset(batch_stride, row_stride, bidb)
     + block_id * k_block_n * row_stride]; with a block table it returns
    the table entry at [bidb * pg_attn_block_batch_stride + block_id]
    times [pg_attn_cache_block_stride], the same for every batch stride,
    row stride, page length and key base offset. *)
Theorem C2_paged_key_offset
        (index_t : int_type) self batch_stride row_stride bidb block_id
        k_block_n :
  (pg_attn_block_tables_ptr self = nullptr ->
   k_offset_pg index_t self batch_stride row_stride bidb block_id k_block_n
   = Some (cast index_t
             (k_offset index_t self batch_stride row_stride bidb
              + int (block_id * k_block_n) * row_stride)))
  /\ (forall table entry,
        pg_attn_block_tables_ptr self = Some table ->
        load (Some table)
             (int (int (bidb * pg_attn_block_batch_stride self) + block_id))
        = Some entry ->
        k_offset_pg index_t self batch_stride row_stride bidb block_id
                    k_block_n
        = Some (cast index_t (int (entry * pg_attn_cache_block_stride self)))
        /\ forall other batch_stride' row_stride' k_block_n',
            pg_attn_block_tables_ptr other = Some table ->
            pg_attn_block_batch_stride other
            = pg_attn_block_batch_stride self ->
            pg_attn_cache_block_stride other
            = pg_attn_cache_block_stride self ->
            k_offset_pg index_t other batch_stride' row_stride' bidb
                        block_id k_block_n'
            = k_offset_pg index_t self batch_stride row_stride bidb
                          block_id k_block_n).
Proof.
  split.
  - intros Hnull. unfold k_offset_pg. rewrite Hnull.
    cbn [is_nullptr nullptr]. rewrite cast_add_r. reflexivity.
  - intros table entry Htable Hentry.
    assert (Hself : forall s bs rs k,
               pg_attn_block_tables_ptr s = Some table ->
               pg_attn_block_batch_stride s
               = pg_attn_block_batch_stride self ->
               pg_attn_cache_block_stride s
               = pg_attn_cache_block_stride self ->
               k_offset_pg index_t s bs rs bidb block_id k
               = Some (cast index_t
                         (int (entry * pg_attn_cache_block_stride self)))).
    { intros s bs rs k Ht Hb Hc.
      unfold k_offset_pg, block_table_entry, table_index.
      rewrite Ht, Hb, Hc, Hentry. reflexivity. }
    split.
    + apply Hself; [exact Htable | reflexivity | reflexivity].
    + intros other bs' rs' k' Ht Hb Hc.
      rewrite (Hself other bs' rs' k' Ht Hb Hc).
      symmetry. apply Hself; [exact Htable | reflexivity | reflexivity].
Qed.

(** C3.  With no block table, [k_advance_offset_pg] returns
    [-(k_block_n * row_stride)]; with a block table it returns the
    difference of the table entries at [current_block_id - 1] and at
    [current_block_id], times [pg_attn_cache_block_stride].  For the
    table [[2,0,1],[1,2,0]] with batch stride 3 and page stride 64, the
    offset of page 2 of batch element 1 is 0 and the delta at page 2 is
    128. *)
Theorem C3_paged_key_advance
        (index_t : int_type) self bidb current_block_id row_stride k_block_n :
  (pg_attn_block_tables_ptr self = nullptr ->
   k_advance_offset_pg index_t self bidb current_block_id row_stride k_block_n
   = Some (int (- (k_block_n * row_stride))))
  /\ (forall table prev cur,
        pg_attn_block_tables_ptr self = Some table ->
        load (Some table)
             (int (int (int (bidb * pg_attn_block_batch_stride self)
                        + current_block_id) - 1))
        = Some prev ->
        load (Some table)
             (int (int (bidb * pg_attn_block_batch_stride self)
                   + current_block_id))
        = Some cur ->
        k_advance_offset_pg index_t self bidb current_block_id row_stride
                            k_block_n
        = Some (int ((prev - cur) * pg_attn_cache_block_stride self)))
  /\ (forall Varlen u batch_stride,
      exists paged,
        BlockInfo Varlen (paged_params [2; 0; 1; 1; 2; 0] 3 64) 1 u
        = Some paged
        /\ k_offset_pg index_t paged batch_stride row_stride 1 2 k_block_n
           = Some 0
        /\ k_advance_offset_pg index_t paged 1 2 row_stride k_block_n
           = Some 128).
Proof.
  split; [| split].
  - intros Hnull. unfold k_advance_offset_pg. rewrite Hnull.
    cbn [is_nullptr nullptr]. rewrite contiguous_delta. reflexivity.
  - intros table prev cur Htable Hprev Hcur.
    unfold k_advance_offset_pg, block_table_entry, table_index.
    rewrite Htable. cbn [is_nullptr]. rewrite Hprev, Hcur. cbn [bind].
    rewrite paged_delta. reflexivity.
  - intros Varlen u batch_stride.
    destruct Varlen; (eexists; split; [reflexivity |]);
      destruct index_t; split; reflexivity.
Qed.

(** The block table of the scenario, read through the general
    statement. *)
Lemma C3_paged_key_advance_witness :
  exists paged,
    BlockInfo true (paged_params [2; 0; 1; 1; 2; 0] 3 64) 1 nullptr
    = Some paged
    /\ k_advance_offset_pg I64 paged 1 2 128 16
       = Some (int ((2 - 0) * pg_attn_cache_block_stride paged)).
Proof.
  eexists. split; [reflexivity |].
  eapply (C3_paged_key_advance I64); reflexivity.
Defined.

(** The same table: page 2 of batch element 1 is physical page 0, and a
    contiguous cache of the same geometry. *)
Lemma C2_paged_key_offset_witness :
  (exists paged,
     BlockInfo true (paged_params [2; 0; 1; 1; 2; 0] 3 64) 1 nullptr
     = Some paged
     /\ k_offset_pg I64 paged 4096 128 1 2 16
        = Some (cast I64 (int (0 * pg_attn_cache_block_stride paged))))
  /\ (exists flat,
        BlockInfo true padded_params 1 nullptr = Some flat
        /\ k_offset_pg I64 flat 4096 128 1 2 16
           = Some (cast I64 (k_offset I64 flat 4096 128 1
                             + int (2 * 16) * 128))).
Proof.
  split.
  - eexists. split; [reflexivity |].
    eapply (C2_paged_key_offset I64); reflexivity.
  - eexists. split; [reflexivity |].
    apply (C2_paged_key_offset I64). reflexivity.
Defined.

End PagedOffsets.

(** ** Paged against contiguous addressing *)

Section PagedAgainstContiguous.

Import BlockInfo.

(** The offset of page [p] of a contiguous cache, when the [int] product
    [p * k_block_n] is exact in [index_t]. *)
Lemma k_offset_pg_contiguous
      (index_t : int_type) self batch_stride row_stride bidb p k_block_n :
  pg_attn_block_tables_ptr self = nullptr ->
  int_exact index_t (p * k_block_n) ->
  k_offset_pg index_t self batch_stride row_stride bidb p k_block_n
  = Some (cast index_t (k_offset index_t self batch_stride row_stride bidb
                        + p * (k_block_n * row_stride))).
Proof.
  intros Hnull Hexact. unfold k_offset_pg. rewrite Hnull.
  cbn [is_nullptr nullptr]. f_equal.
  rewrite cast_add_r.
  rewrite <- (cast_add_r index_t _ (int (p * k_block_n) * row_stride)).
  rewrite <- (cast_add_r index_t _ (p * (k_block_n * row_stride))).
  f_equal. f_equal.
  rewrite <- cast_mul_l. unfold int_exact in Hexact. rewrite Hexact.
  rewrite cast_mul_l. f_equal. ring.
Qed.

(** The offset of a page that the block table has an entry for. *)
Lemma k_offset_pg_paged
      (index_t : int_type) self batch_stride row_stride bidb p k_block_n entry :
  block_table_entry self bidb p = Some entry ->
  k_offset_pg index_t self batch_stride row_stride bidb p k_block_n
  = Some (cast index_t (physical_offset self bidb p)).
Proof.
  intros Hentry. unfold k_offset_pg, physical_offset. rewrite Hentry.
  unfold block_table_entry in Hentry.
  destruct (pg_attn_block_tables_ptr self); [reflexivity | discriminate].
Qed.

(** The offset of a page of a contiguous cache, modulo [2^32]. *)
Lemma k_offset_pg_contiguous_int
      (index_t : int_type) self batch_stride row_stride bidb p k_block_n :
  pg_attn_block_tables_ptr self = nullptr ->
  exists offset,
    k_offset_pg index_t self batch_stride row_stride bidb p k_block_n
    = Some offset
    /\ int offset
       = int (k_offset index_t self batch_stride row_stride bidb
              + p * (k_block_n * row_stride)).
Proof.
  intros Hnull. unfold k_offset_pg. rewrite Hnull.
  cbn [is_nullptr nullptr]. eexists. split; [reflexivity |].
  rewrite int_cast.
  unfold int.
  rewrite <- (cast_add_r I32 _ (cast index_t _)).
  fold (int (cast index_t (int (p * k_block_n) * row_stride))).
  rewrite int_cast. unfold int.
  rewrite (cast_mul_l I32), cast_add_r. f_equal. ring.
Qed.

Lemma int_add_cast_r t a b : int (a + cast t b) = int (a + b).
Proof.
  unfold int. rewrite <- (cast_add_r I32 a (cast t b)).
  fold (int (cast t b)). rewrite int_cast. unfold int.
  apply cast_add_r.
Qed.

(** C7, as stated, fails at every batch element whose contiguous base
    offset is not 0.  The table [[0,1],[0,1]] is the identity on 2 batch
    elements and 2 pages, and the page stride 16 is [16 * 1]; at batch
    index 1, page 1, with [batch_stride = 1000], the paged offset is
    [1 * 16 = 16] and the contiguous one is [1 * 1000 + 1 * 16 * 1 = 1016]. *)
Lemma C7_counterexample :
  exists paged flat,
    BlockInfo true (paged_params [0; 1; 0; 1] 2 16) 1 nullptr = Some paged
    /\ BlockInfo true padded_params 1 nullptr = Some flat
    /\ identity_table paged 2 2
    /\ pg_attn_cache_block_stride paged = 16 * 1
    /\ k_offset_pg I64 paged 1000 1 1 1 16 = Some 16
    /\ k_offset_pg I64 flat 1000 1 1 1 16 = Some 1016
    /\ k_offset_pg I64 paged 1000 1 1 1 16
       <> k_offset_pg I64 flat 1000 1 1 1 16.
Proof.
  eexists. eexists. split; [reflexivity |]. split; [reflexivity |].
  split; [| repeat split; discriminate].
  intros b p Hb Hp.
  assert (Hb' : b = 0 \/ b = 1) by lia.
  assert (Hp' : p = 0 \/ p = 1) by lia.
  destruct Hb' as [-> | ->], Hp' as [-> | ->]; reflexivity.
Qed.

(** C7 (amended).  With the identity table and
    [pg_attn_cache_block_stride = k_block_n * row_stride], the contiguous
    offset is the base offset [k_offset] of the batch element plus the
    paged offset: modulo [2^32] in every case, and in [index_t] when the
    [int] products [block_id * k_block_n] and
    [block_id * pg_attn_cache_block_stride] are exact in [index_t].  The
    two offsets then agree where that base offset is 0. *)
Theorem C7_identity_table
        (index_t : int_type) paged flat batches pages
        batch_stride row_stride bidb block_id k_block_n :
  pg_attn_block_tables_ptr flat = nullptr ->
  identity_table paged batches pages ->
  0 <= bidb < batches ->
  0 <= block_id < pages ->
  pg_attn_cache_block_stride paged = k_block_n * row_stride ->
  exists paged_offset flat_offset,
    k_offset_pg index_t paged batch_stride row_stride bidb block_id k_block_n
    = Some paged_offset
    /\ k_offset_pg index_t flat batch_stride row_stride bidb block_id k_block_n
       = Some flat_offset
    /\ int flat_offset
       = int (k_offset index_t flat batch_stride row_stride bidb
              + paged_offset)
    /\ (int_exact index_t (block_id * k_block_n) ->
        int_exact index_t (block_id * pg_attn_cache_block_stride paged) ->
        flat_offset
        = cast index_t (k_offset index_t flat batch_stride row_stride bidb
                        + paged_offset)
        /\ (k_offset index_t flat batch_stride row_stride bidb = 0 ->
            flat_offset = paged_offset)).
Proof.
  intros Hnull Hid Hb Hp Hstride.
  pose proof (Hid bidb block_id Hb Hp) as Hentry.
  destruct (k_offset_pg_contiguous_int index_t flat batch_stride row_stride
              bidb block_id k_block_n Hnull) as (flat_offset & Hflat & Hflat32).
  exists (cast index_t (physical_offset paged bidb block_id)), flat_offset.
  split; [apply (k_offset_pg_paged _ _ _ _ _ _ _ _ Hentry) |].
  split; [exact Hflat |].
  unfold physical_offset. rewrite Hentry, Hstride.
  split.
  - rewrite Hflat32, int_add_cast_r. unfold int.
    rewrite (cast_add_r I32). reflexivity.
  - intros Hpage Hphys.
    rewrite (k_offset_pg_contiguous _ _ _ _ _ _ _ Hnull Hpage) in Hflat.
    injection Hflat as <-.
    unfold int_exact in Hphys.
    split.
    + rewrite cast_add_r, <- (cast_add_r index_t _ (int _)), Hphys, cast_add_r.
      reflexivity.
    + intros Hbase. rewrite Hbase, Z.add_0_l, Hphys. reflexivity.
Qed.

(** The identity table on 2 batch elements and 2 pages, at batch index 1
    and page 1, where the contiguous base offset is [1 * 1000]. *)
Lemma C7_identity_table_witness :
  exists paged flat,
    BlockInfo true (paged_params [0; 1; 0; 1] 2 16) 1 nullptr = Some paged
    /\ BlockInfo true padded_params 1 nullptr = Some flat
    /\ exists paged_offset flat_offset,
        k_offset_pg I64 paged 1000 1 1 1 16 = Some paged_offset
        /\ k_offset_pg I64 flat 1000 1 1 1 16 = Some flat_offset
        /\ flat_offset
           = cast I64 (k_offset I64 flat 1000 1 1 + paged_offset).
Proof.
  eexists. eexists. split; [reflexivity |]. split; [reflexivity |].
  match goal with
  | |- exists paged_offset flat_offset,
        k_offset_pg _ ?paged _ _ _ _ _ = _
        /\ k_offset_pg _ ?flat _ _ _ _ _ = _ /\ _ =>
      destruct (C7_identity_table I64 paged flat 2 2 1000 1 1 1 16)
        as (paged_offset & flat_offset & Hpaged & Hflat & _ & Hexact)
  end.
  - reflexivity.
  - intros b p Hb Hp.
    assert (Hb' : b = 0 \/ b = 1) by lia.
    assert (Hp' : p = 0 \/ p = 1) by lia.
    destruct Hb' as [-> | ->], Hp' as [-> | ->]; reflexivity.
  - lia.
  - lia.
  - reflexivity.
  - exists paged_offset, flat_offset.
    split; [exact Hpaged |]. split; [exact Hflat |].
    apply Hexact; reflexivity.
Defined.

End PagedAgainstContiguous.

(** ** Walking the pages backwards *)

Section DescendingWalk.

Import BlockInfo.

Lemma k_advance_offset_pg_contiguous
      (index_t : int_type) self bidb current row_stride k_block_n :
  pg_attn_block_tables_ptr self = nullptr ->
  k_advance_offset_pg index_t self bidb current row_stride k_block_n
  = Some (int (- (k_block_n * row_stride))).
Proof.
  intros Hnull. unfold k_advance_offset_pg. rewrite Hnull.
  cbn [is_nullptr nullptr]. rewrite contiguous_delta. reflexivity.
Qed.

Lemma k_advance_offset_pg_paged
      (index_t : int_type) self bidb current row_stride k_block_n prev cur :
  block_table_entry self bidb (current - 1) = Some prev ->
  block_table_entry self bidb current = Some cur ->
  k_advance_offset_pg index_t self bidb current row_stride k_block_n
  = Some (int (physical_offset self bidb (current - 1)
               - physical_offset self bidb current)).
Proof.
  intros Hprev Hcur. unfold k_advance_offset_pg, physical_offset.
  rewrite table_index_pred. fold (block_table_entry self bidb (current - 1)).
  rewrite Hprev, Hcur. cbn [bind].
  unfold block_table_entry in Hcur.
  destruct (pg_attn_block_tables_ptr self); [| discriminate Hcur].
  cbn [is_nullptr]. unfold int. rewrite cast_sub_l, cast_sub_r. reflexivity.
Qed.

(** The deltas of a walk add up, modulo the width of any type [t], to
    the difference of any offsets [o] whose adjacent differences the
    deltas are modulo that width. *)
Lemma advance_sum_telescope
      (t index_t : int_type) self bidb row_stride k_block_n (o : Z -> Z) n :
  forall start,
    (forall c, start - Z.of_nat n < c <= start ->
               exists delta,
                 k_advance_offset_pg index_t self bidb c row_stride k_block_n
                 = Some delta
                 /\ cast t delta = cast t (o (c - 1) - o c)) ->
    exists deltas,
      advance_sum index_t self bidb row_stride k_block_n start n = Some deltas
      /\ cast t deltas = cast t (o (start - Z.of_nat n) - o start).
Proof.
  induction n as [| n IH]; intros start Hstep.
  - exists 0. split; [reflexivity |].
    cbn [Z.of_nat]. rewrite Z.sub_0_r, Z.sub_diag. reflexivity.
  - destruct (Hstep start ltac:(lia)) as (delta & Hdelta & Hcast).
    destruct (IH (start - 1)) as (rest & Hrest & Hsum).
    { intros c Hc. apply Hstep. lia. }
    exists (delta + rest). split.
    + cbn [advance_sum]. rewrite Hdelta. cbn [bind]. rewrite Hrest.
      reflexivity.
    + rewrite <- cast_add_l, <- cast_add_r, Hcast, Hsum.
      rewrite cast_add_l, cast_add_r. f_equal.
      replace (start - Z.of_nat (S n)) with (start - 1 - Z.of_nat n) by lia.
      ring.
Qed.

(** Closing a walk: the first offset plus the deltas is the last offset,
    all modulo the width of [t]. *)
Lemma walk_closes t a b first last s :
  cast t first = cast t a ->
  cast t last = cast t b ->
  cast t s = cast t (b - a) ->
  cast t (first + s) = cast t last.
Proof.
  intros Hfirst Hlast Hs.
  rewrite <- cast_add_l, <- cast_add_r, Hfirst, Hs, Hlast.
  rewrite cast_add_l, cast_add_r. f_equal. ring.
Qed.

(** C8, as stated, fails for a 64-bit [index_t] when the page size in
    elements does not fit the [int] that [k_advance_offset_pg] returns:
    in a contiguous cache with [k_block_n = 256] and
    [row_stride = 2^24], page 1 is at offset [2^32] and page 0 at 0, and
    the delta at page 1 is [-int(2^32) = 0]. *)
Lemma C8_counterexample :
  exists flat,
    BlockInfo true padded_params 0 nullptr = Some flat
    /\ k_offset_pg I64 flat 0 16777216 0 1 256 = Some 4294967296
    /\ advance_sum I64 flat 0 16777216 256 1 1 = Some 0
    /\ k_offset_pg I64 flat 0 16777216 0 0 256 = Some 0
    /\ cast I64 (4294967296 + 0) <> 0.
Proof.
  eexists. split; [reflexivity |]. repeat split. discriminate.
Qed.

(** C8 (amended).  Over every walk of [n] backward steps from page
    [start], all pages of which have a table entry when the cache is
    paged, the offset of [start] plus the sum of the deltas agrees with
    the offset of page [start - n] modulo [2^32]; the two are equal in
    [index_t] provided no [int] of the computation loses a part of its
    exact value when converted to [index_t]: in a contiguous cache the
    products [start * k_block_n] and [(start - n) * k_block_n] and the
    delta [-(k_block_n * row_stride)], in a paged cache the difference
    of the physical offsets of every two adjacent pages visited. *)
Theorem C8_descending_walk
        (index_t : int_type) self batch_stride row_stride bidb k_block_n
        start (n : nat) :
  (pg_attn_block_tables_ptr self <> nullptr ->
   forall p, start - Z.of_nat n <= p <= start ->
             block_table_entry self bidb p <> None) ->
  exists first deltas last,
    k_offset_pg index_t self batch_stride row_stride bidb start k_block_n
    = Some first
    /\ advance_sum index_t self bidb row_stride k_block_n start n
       = Some deltas
    /\ k_offset_pg index_t self batch_stride row_stride bidb
                   (start - Z.of_nat n) k_block_n
       = Some last
    /\ int (first + deltas) = int last
    /\ ((pg_attn_block_tables_ptr self = nullptr ->
         int_exact index_t (start * k_block_n)
         /\ int_exact index_t ((start - Z.of_nat n) * k_block_n)
         /\ int_exact index_t (- (k_block_n * row_stride))) ->
        (pg_attn_block_tables_ptr self <> nullptr ->
         forall p, start - Z.of_nat n <= p < start ->
                   int_exact index_t (physical_offset self bidb p
                                      - physical_offset self bidb (p + 1))) ->
        cast index_t (first + deltas) = last).
Proof.
  intros Hentries.
  destruct (pg_attn_block_tables_ptr self) as [table |] eqn:Htable.
  - assert (Hvisit : forall p, start - Z.of_nat n <= p <= start ->
                               exists entry,
                                 block_table_entry self bidb p = Some entry).
    { intros p Hp. pose proof (Hentries ltac:(discriminate) p Hp) as Hsome.
      destruct (block_table_entry self bidb p) as [entry |];
        [exists entry; reflexivity | contradiction]. }
    assert (Hstep : forall c, start - Z.of_nat n < c <= start ->
                              k_advance_offset_pg index_t self bidb c
                                                  row_stride k_block_n
                              = Some (int (physical_offset self bidb (c - 1)
                                           - physical_offset self bidb c))).
    { intros c Hc.
      destruct (Hvisit (c - 1) ltac:(lia)) as [prev Hprev].
      destruct (Hvisit c ltac:(lia)) as [cur Hcur].
      apply (k_advance_offset_pg_paged _ _ _ _ _ _ _ _ Hprev Hcur). }
    destruct (Hvisit start ltac:(lia)) as [e_first Hfirst].
    destruct (Hvisit (start - Z.of_nat n) ltac:(lia)) as [e_last Hlast].
    destruct (advance_sum_telescope I32 index_t self bidb row_stride
                k_block_n (physical_offset self bidb) n start)
      as (deltas & Hdeltas & Hsum).
    { intros c Hc. eexists. split; [apply Hstep; exact Hc |].
      apply cast_idem. }
    eexists. exists deltas. eexists.
    split; [apply (k_offset_pg_paged _ _ _ _ _ _ _ _ Hfirst) |].
    split; [exact Hdeltas |].
    split; [apply (k_offset_pg_paged _ _ _ _ _ _ _ _ Hlast) |].
    split.
    + apply (walk_closes I32 (physical_offset self bidb start)
                         (physical_offset self bidb (start - Z.of_nat n)));
        [apply int_cast | apply int_cast | exact Hsum].
    + intros _ Hexact.
      destruct (advance_sum_telescope index_t index_t self bidb row_stride
                  k_block_n (physical_offset self bidb) n start)
        as (deltas' & Hdeltas' & Hsum').
      { intros c Hc. eexists. split; [apply Hstep; exact Hc |].
        pose proof (Hexact ltac:(discriminate) (c - 1) ltac:(lia)) as He.
        replace (c - 1 + 1) with c in He by ring. exact He. }
      rewrite Hdeltas in Hdeltas'. injection Hdeltas' as <-.
      rewrite <- (cast_idem index_t
                    (physical_offset self bidb (start - Z.of_nat n))).
      apply (walk_closes index_t (physical_offset self bidb start)
                         (physical_offset self bidb (start - Z.of_nat n)));
        [apply cast_idem | apply cast_idem | exact Hsum'].
  - clear Hentries.
    pose (o := fun p => k_offset index_t self batch_stride row_stride bidb
                        + p * (k_block_n * row_stride)).
    assert (Hstep : forall c,
               k_advance_offset_pg index_t self bidb c row_stride k_block_n
               = Some (int (- (k_block_n * row_stride)))).
    { intros c. apply k_advance_offset_pg_contiguous. exact Htable. }
    destruct (k_offset_pg_contiguous_int index_t self batch_stride row_stride
                bidb start k_block_n Htable) as (first & Hfirst & Hfirst32).
    destruct (k_offset_pg_contiguous_int index_t self batch_stride row_stride
                bidb (start - Z.of_nat n) k_block_n Htable)
      as (last & Hlast & Hlast32).
    destruct (advance_sum_telescope I32 index_t self bidb row_stride
                k_block_n o n start) as (deltas & Hdeltas & Hsum).
    { intros c Hc. eexists. split; [apply Hstep |].
      rewrite cast_idem. unfold o. f_equal. ring. }
    exists first, deltas, last.
    split; [exact Hfirst |]. split; [exact Hdeltas |].
    split; [exact Hlast |]. split.
    + apply (walk_closes I32 (o start) (o (start - Z.of_nat n)));
        [exact Hfirst32 | exact Hlast32 | exact Hsum].
    + intros Hexact _. destruct (Hexact eq_refl) as (Hstart & Hend & Hdelta).
      rewrite (k_offset_pg_contiguous _ _ _ _ _ _ _ Htable Hstart) in Hfirst.
      rewrite (k_offset_pg_contiguous _ _ _ _ _ _ _ Htable Hend) in Hlast.
      injection Hfirst as <-. injection Hlast as <-.
      destruct (advance_sum_telescope index_t index_t self bidb row_stride
                  k_block_n o n start) as (deltas' & Hdeltas' & Hsum').
      { intros c Hc. eexists. split; [apply Hstep |].
        unfold int_exact in Hdelta. rewrite Hdelta. unfold o. f_equal. ring. }
      rewrite Hdeltas in Hdeltas'. injection Hdeltas' as <-.
      fold (o start). fold (o (start - Z.of_nat n)).
      rewrite <- (cast_idem index_t (o (start - Z.of_nat n))).
      apply (walk_closes index_t (o start) (o (start - Z.of_nat n)));
        [apply cast_idem | apply cast_idem | exact Hsum'].
Qed.

(** The walk from page 2 to page 0 of batch element 1 through the table
    [[2,0,1],[1,2,0]] with pages of 64 elements: the offsets are 0, 128
    and 64, the deltas 128 and -64. *)
Lemma C8_descending_walk_witness :
  exists paged,
    BlockInfo true (paged_params [2; 0; 1; 1; 2; 0] 3 64) 1 nullptr
    = Some paged
    /\ exists first deltas last,
        k_offset_pg I64 paged 4096 128 1 2 16 = Some first
        /\ advance_sum I64 paged 1 128 16 2 2 = Some deltas
        /\ k_offset_pg I64 paged 4096 128 1 (2 - Z.of_nat 2) 16 = Some last
        /\ cast I64 (first + deltas) = last.
Proof.
  eexists. split; [reflexivity |].
  match goal with
  | |- exists first deltas last,
        k_offset_pg _ ?paged _ _ _ _ _ = _ /\ _ =>
      destruct (C8_descending_walk I64 paged 4096 128 1 16 2 2)
        as (first & deltas & last & Hfirst & Hdeltas & Hlast & _ & Hexact)
  end.
  - intros _ p Hp.
    assert (Hp' : p = 0 \/ p = 1 \/ p = 2) by (cbn in Hp; lia).
    destruct Hp' as [-> | [-> | ->]]; discriminate.
  - exists first, deltas, last.
    split; [exact Hfirst |]. split; [exact Hdeltas |].
    split; [exact Hlast |].
    apply Hexact.
    + discriminate.
    + intros _ p Hp.
      assert (Hp' : p = 0 \/ p = 1) by (cbn in Hp; lia).
      destruct Hp' as [-> | ->]; reflexivity.
Defined.

End DescendingWalk.

(** * Further properties of the constructor and the accessors *)

(** ** The instantiations and the members of an instance *)

Section Instances.

Import BlockInfo.

Lemma in_range_int z : in_range I32 z <-> - 2 ^ 31 <= z < 2 ^ 31.
Proof. unfold in_range. cbn [is_signed bits]. reflexivity. Qed.

Lemma load_int_array p i v :
  int_array p -> load p i = Some v -> in_range I32 v.
Proof.
  destruct p as [cells |]; cbn [int_array load]; [| discriminate].
  intros Hall. destruct (i <? 0); [discriminate |].
  intros Hnth. apply nth_error_In in Hnth.
  rewrite Forall_forall in Hall. apply Hall. exact Hnth.
Qed.

(** With both arrays absent the template flag makes no difference: the
    [Varlen = false] and the [Varlen = true] constructor build the same
    instance at every batch index. *)
Theorem Varlen_irrelevant_without_arrays params bidb u :
  Params.cu_seqlens_q params = nullptr ->
  Params.cu_seqlens_k params = nullptr ->
  BlockInfo false params bidb u = BlockInfo true params bidb u.
Proof.
  intros Hq Hk. unfold BlockInfo. cbv zeta. rewrite Hq, Hk. reflexivity.
Qed.

Lemma Varlen_irrelevant_without_arrays_witness :
  BlockInfo false (paged_params [2; 0; 1; 1; 2; 0] 3 64) 5 nullptr
  = BlockInfo true (paged_params [2; 0; 1; 1; 2; 0] 3 64) 5 nullptr.
Proof.
  apply Varlen_irrelevant_without_arrays; reflexivity.
Defined.

End Instances.

(** ** Packed sequences laid end to end *)

Section PackedSequences.

Import BlockInfo.

Lemma uint32_t_int z : 0 <= z -> in_range I32 z -> uint32_t z = z.
Proof.
  intros Hz Hr. apply (proj1 (in_range_int _)) in Hr. apply uint32_t_nonneg.
  assert (Hpow : 2 ^ 31 < 2 ^ 32) by reflexivity. lia.
Qed.

(** The arithmetic shared by the two kinds: the offset [hi] of the next
    sequence is the offset [lo] of this one plus its length. *)
Lemma next_offset_int lo hi :
  in_range I32 hi -> hi = int (lo + int (hi - lo)).
Proof.
  intros Hhi. unfold int. rewrite cast_add_r.
  replace (lo + (hi - lo)) with hi by ring.
  symmetry. apply cast_small. exact Hhi.
Qed.

Lemma next_row_offset (t : int_type) lo hi row_stride :
  0 <= lo -> 0 <= hi -> in_range I32 lo -> in_range I32 hi ->
  cast t (uint32_t hi * row_stride)
  = cast t (cast t (uint32_t lo * row_stride) + int (hi - lo) * row_stride).
Proof.
  intros Hlo Hhi Rlo Rhi.
  rewrite (uint32_t_int lo Hlo Rlo), (uint32_t_int hi Hhi Rhi).
  apply (proj1 (in_range_int _)) in Rlo. apply (proj1 (in_range_int _)) in Rhi.
  rewrite (int_small (hi - lo)) by lia.
  rewrite cast_add_l. f_equal. ring.
Qed.

(** Packed query sequences tile the buffer.  With the cumulative array
    present and holding [int]s, the instance of batch element
    [bidb + 1] starts where that of [bidb] ends:
    [sum_s_q] of the next is [sum_s_q + actual_seqlen_q] of this one;
    when the two offsets are not negative, the rows of the next start
    [actual_seqlen_q] rows after the rows of this one, and when they do
    not decrease the length is their exact difference and is not
    negative. *)
Theorem packed_queries_tile
        (index_t : int_type) params bidb u u' batch_stride row_stride :
  valid_batch_index params bidb = true ->
  valid_batch_index params (bidb + 1) = true ->
  Params.cu_seqlens_q params <> nullptr ->
  int_array (Params.cu_seqlens_q params) ->
  exists this next,
    BlockInfo true params bidb u = Some this
    /\ BlockInfo true params (bidb + 1) u' = Some next
    /\ sum_s_q next = int (sum_s_q this + actual_seqlen_q this)
    /\ (0 <= sum_s_q this -> 0 <= sum_s_q next ->
        q_offset index_t next batch_stride row_stride (bidb + 1)
        = cast index_t (q_offset index_t this batch_stride row_stride bidb
                        + actual_seqlen_q this * row_stride))
    /\ (0 <= sum_s_q this <= sum_s_q next ->
        actual_seqlen_q this = sum_s_q next - sum_s_q this
        /\ 0 <= actual_seqlen_q this).
Proof.
  intros Hv Hv' Hq Harr.
  destruct (BlockInfo_valid params bidb u Hv) as (this & Hthis & Hthis_q & _).
  destruct (BlockInfo_valid params (bidb + 1) u' Hv')
    as (next & Hnext & Hnext_q & _).
  exists this, next. split; [exact Hthis |]. split; [exact Hnext |].
  destruct (Params.cu_seqlens_q params) as [cells |]; [| contradiction].
  destruct Hthis_q as (lo & hi & Hlo & Hhi & Hsum & Hlen).
  destruct Hnext_q as (lo' & hi' & Hlo' & _ & Hsum' & _).
  rewrite Hhi in Hlo'. injection Hlo' as <-.
  pose proof (load_int_array _ _ _ Harr Hlo) as Rlo.
  pose proof (load_int_array _ _ _ Harr Hhi) as Rhi.
  rewrite Hlen, Hsum, Hsum'.
  split; [apply next_offset_int; exact Rhi |]. split.
  - intros Hlo0 Hhi0. unfold q_offset. rewrite Hsum, Hsum'.
    destruct (Z.eqb_spec lo (-1)) as [-> | _]; [lia |].
    destruct (Z.eqb_spec hi (-1)) as [-> | _]; [lia |].
    apply next_row_offset; assumption.
  - intros Hmono. apply (proj1 (in_range_int _)) in Rlo. apply (proj1 (in_range_int _)) in Rhi.
    rewrite (int_small (hi - lo)) by lia. lia.
Qed.

(** The query offsets [0; 5; 12]: batch element 1 starts at row 5, five
    rows after batch element 0. *)
Lemma packed_queries_tile_witness :
  exists this next,
    BlockInfo true (varlen_params [0; 5; 12] [0; 8; 8] true) 0 nullptr
    = Some this
    /\ BlockInfo true (varlen_params [0; 5; 12] [0; 8; 8] true) (0 + 1) nullptr
       = Some next
    /\ sum_s_q next = int (sum_s_q this + actual_seqlen_q this).
Proof.
  destruct (packed_queries_tile I64
              (varlen_params [0; 5; 12] [0; 8; 8] true) 0 nullptr nullptr
              4096 128)
    as (this & next & Hthis & Hnext & Hsum & _).
  - reflexivity.
  - reflexivity.
  - discriminate.
  - cbn. repeat constructor; discriminate.
  - exists this, next. repeat split; assumption.
Defined.

(** Packed key sequences tile the buffer in the same way when the key
    array holds cumulative offsets. *)
Theorem packed_keys_tile
        (index_t : int_type) params bidb u u' batch_stride row_stride :
  valid_batch_index params bidb = true ->
  valid_batch_index params (bidb + 1) = true ->
  Params.cu_seqlens_k params <> nullptr ->
  Params.is_seqlens_k_cumulative params = true ->
  int_array (Params.cu_seqlens_k params) ->
  exists this next,
    BlockInfo true params bidb u = Some this
    /\ BlockInfo true params (bidb + 1) u' = Some next
    /\ sum_s_k next = int (sum_s_k this + seqlen_k_cache this)
    /\ (0 <= sum_s_k this -> 0 <= sum_s_k next ->
        k_offset index_t next batch_stride row_stride (bidb + 1)
        = cast index_t (k_offset index_t this batch_stride row_stride bidb
                        + seqlen_k_cache this * row_stride))
    /\ (0 <= sum_s_k this <= sum_s_k next ->
        seqlen_k_cache this = sum_s_k next - sum_s_k this
        /\ 0 <= seqlen_k_cache this).
Proof.
  intros Hv Hv' Hk Hcum Harr.
  destruct (BlockInfo_valid params bidb u Hv)
    as (this & Hthis & _ & Hthis_k & _).
  destruct (BlockInfo_valid params (bidb + 1) u' Hv')
    as (next & Hnext & _ & Hnext_k & _).
  exists this, next. split; [exact Hthis |]. split; [exact Hnext |].
  destruct (Params.cu_seqlens_k params) as [cells |]; [| contradiction].
  rewrite Hcum in Hthis_k, Hnext_k.
  destruct Hthis_k as (lo & hi & Hlo & Hhi & Hsum & Hlen).
  destruct Hnext_k as (lo' & hi' & Hlo' & _ & Hsum' & _).
  rewrite Hhi in Hlo'. injection Hlo' as <-.
  pose proof (load_int_array _ _ _ Harr Hlo) as Rlo.
  pose proof (load_int_array _ _ _ Harr Hhi) as Rhi.
  rewrite Hlen, Hsum, Hsum'.
  split; [apply next_offset_int; exact Rhi |]. split.
  - intros Hlo0 Hhi0. unfold k_offset. rewrite Hsum, Hsum'.
    destruct (Z.eqb_spec lo (-1)) as [-> | _]; [lia |].
    destruct (Z.eqb_spec hi (-1)) as [-> | _]; [lia |].
    apply next_row_offset; assumption.
  - intros Hmono. apply (proj1 (in_range_int _)) in Rlo. apply (proj1 (in_range_int _)) in Rhi.
    rewrite (int_small (hi - lo)) by lia. lia.
Qed.

(** The key offsets [0; 8; 20]: batch element 1 starts at row 8. *)
Lemma packed_keys_tile_witness :
  exists this next,
    BlockInfo true (varlen_params [0; 5; 12] [0; 8; 20] true) 0 nullptr
    = Some this
    /\ BlockInfo true (varlen_params [0; 5; 12] [0; 8; 20] true) (0 + 1) nullptr
       = Some next
    /\ k_offset I64 next 4096 128 (0 + 1)
       = cast I64 (k_offset I64 this 4096 128 0 + seqlen_k_cache this * 128).
Proof.
  destruct (packed_keys_tile I64
              (varlen_params [0; 5; 12] [0; 8; 20] true) 0 nullptr nullptr
              4096 128)
    as (this & next & Hthis & Hnext & Hsum & Hrows & _).
  - reflexivity.
  - reflexivity.
  - discriminate.
  - reflexivity.
  - cbn. repeat constructor; discriminate.
  - exists this, next. split; [exact Hthis |]. split; [exact Hnext |].
    apply Hrows.
    + pose proof Hthis as E. vm_compute in E. injection E as <-.
      cbn [sum_s_k]. lia.
    + pose proof Hnext as E. vm_compute in E. injection E as <-.
      cbn [sum_s_k]. lia.
Defined.

(** A key array that holds lengths gives the length of a batch element
    and nothing else: the instance keeps the sentinel, so [k_offset]
    addresses the keys by the batch stride, as in fixed-length mode,
    whatever the row stride. *)
Theorem key_lengths_keep_batch_stride
        (index_t : int_type) params bidb u batch_stride row_stride bidb' :
  valid_batch_index params bidb = true ->
  Params.cu_seqlens_k params <> nullptr ->
  Params.is_seqlens_k_cumulative params = false ->
  exists self,
    BlockInfo true params bidb u = Some self
    /\ load (Params.cu_seqlens_k params) bidb = Some (seqlen_k_cache self)
    /\ k_offset index_t self batch_stride row_stride bidb'
       = cast index_t (bidb' * batch_stride).
Proof.
  intros Hv Hk Hlen.
  destruct (BlockInfo_valid params bidb u Hv) as (self & Hself & _ & Hkey & _).
  exists self. split; [exact Hself |].
  destruct (Params.cu_seqlens_k params) as [cells |]; [| contradiction].
  rewrite Hlen in Hkey. destruct Hkey as [Hsum Hload].
  split; [exact Hload |].
  unfold k_offset. rewrite Hsum. reflexivity.
Qed.

(** The lengths [0; 8; 8]: batch element 1 has 8 keys, at batch stride
    4096. *)
Lemma key_lengths_keep_batch_stride_witness :
  exists self,
    BlockInfo true (varlen_params [0; 5; 12] [0; 8; 8] false) 1 nullptr
    = Some self
    /\ k_offset I64 self 4096 128 1 = cast I64 (1 * 4096).
Proof.
  destruct (key_lengths_keep_batch_stride I64
              (varlen_params [0; 5; 12] [0; 8; 8] false) 1 nullptr 4096 128 1)
    as (self & Hself & _ & Hoff).
  - reflexivity.
  - discriminate.
  - reflexivity.
  - exists self. split; assumption.
Defined.

End PackedSequences.

(** ** The accessors across index types and across the block table *)

Section AccessorFacts.

Import BlockInfo.

(** The choice of [index_t] only widens the offsets.
    [k_advance_offset_pg] returns the same [int] for every [index_t],
    and the results of [q_offset], [k_offset] and [k_offset_pg] for two
    index types agree modulo [2^32]. *)
Theorem index_t_only_widens
        (index_t index_t' : int_type) self batch_stride row_stride bidb
        block_id k_block_n :
  k_advance_offset_pg index_t self bidb block_id row_stride k_block_n
  = k_advance_offset_pg index_t' self bidb block_id row_stride k_block_n
  /\ int (q_offset index_t self batch_stride row_stride bidb)
     = int (q_offset index_t' self batch_stride row_stride bidb)
  /\ int (k_offset index_t self batch_stride row_stride bidb)
     = int (k_offset index_t' self batch_stride row_stride bidb)
  /\ option_map int
       (k_offset_pg index_t self batch_stride row_stride bidb block_id
                    k_block_n)
     = option_map int
         (k_offset_pg index_t' self batch_stride row_stride bidb block_id
                      k_block_n).
Proof.
  assert (Hk : int (k_offset index_t self batch_stride row_stride bidb)
               = int (k_offset index_t' self batch_stride row_stride bidb)).
  { unfold k_offset. destruct (sum_s_k self =? -1); rewrite !int_cast;
      reflexivity. }
  split; [| split; [| split; [exact Hk |]]].
  - unfold k_advance_offset_pg.
    destruct (is_nullptr (pg_attn_block_tables_ptr self)); [| reflexivity].
    rewrite !contiguous_delta. reflexivity.
  - unfold q_offset. destruct (sum_s_q self =? -1); rewrite !int_cast;
      reflexivity.
  - unfold k_offset_pg.
    destruct (is_nullptr (pg_attn_block_tables_ptr self)).
    + cbn [option_map]. f_equal.
      rewrite !int_cast, !int_add_cast_r.
      unfold int in *.
      rewrite <- (cast_add_l I32 (k_offset index_t _ _ _ _)).
      rewrite <- (cast_add_l I32 (k_offset index_t' _ _ _ _)).
      rewrite Hk. reflexivity.
    + destruct (block_table_entry self bidb block_id); cbn [bind option_map];
        [| reflexivity].
      rewrite !int_cast. reflexivity.
Qed.

(** Under the identity block table with pages of
    [k_block_n * row_stride] elements, the paged delta at every page but
    the first is the delta of the contiguous cache: stepping back one
    page moves the same distance in both. *)
Theorem identity_table_same_delta
        (index_t : int_type) paged flat batches pages
        bidb current_block_id row_stride k_block_n :
  pg_attn_block_tables_ptr flat = nullptr ->
  identity_table paged batches pages ->
  0 <= bidb < batches ->
  1 <= current_block_id < pages ->
  pg_attn_cache_block_stride paged = k_block_n * row_stride ->
  k_advance_offset_pg index_t paged bidb current_block_id row_stride k_block_n
  = k_advance_offset_pg index_t flat bidb current_block_id row_stride
                        k_block_n.
Proof.
  intros Hnull Hid Hb Hc Hstride.
  pose proof (Hid bidb (current_block_id - 1) Hb ltac:(lia)) as Hprev.
  pose proof (Hid bidb current_block_id Hb ltac:(lia)) as Hcur.
  rewrite (k_advance_offset_pg_paged _ _ _ _ _ _ _ _ Hprev Hcur).
  rewrite (k_advance_offset_pg_contiguous _ _ _ _ _ _ Hnull).
  unfold physical_offset. rewrite Hprev, Hcur, Hstride.
  f_equal. unfold int. rewrite cast_sub_l, cast_sub_r. f_equal. ring.
Qed.

(** The identity table on 2 batch elements and 2 pages of 16 rows of 1
    element: the delta at page 1 of batch element 1 is -16 either way. *)
Lemma identity_table_same_delta_witness :
  exists paged flat,
    BlockInfo true (paged_params [0; 1; 0; 1] 2 16) 1 nullptr = Some paged
    /\ BlockInfo true padded_params 1 nullptr = Some flat
    /\ k_advance_offset_pg I64 paged 1 1 1 16
       = k_advance_offset_pg I64 flat 1 1 1 16.
Proof.
  eexists. eexists. split; [reflexivity |]. split; [reflexivity |].
  apply (identity_table_same_delta I64) with (batches := 2) (pages := 2).
  - reflexivity.
  - intros b p Hb Hp.
    assert (Hb' : b = 0 \/ b = 1) by lia.
    assert (Hp' : p = 0 \/ p = 1) by lia.
    destruct Hb' as [-> | ->], Hp' as [-> | ->]; reflexivity.
  - lia.
  - lia.
  - reflexivity.
Defined.

Lemma table_index_next_row self bidb block_id :
  table_index self bidb (block_id + pg_attn_block_batch_stride self)
  = table_index self (bidb + 1) block_id.
Proof.
  unfold table_index, int. rewrite !cast_add_l. f_equal. ring.
Qed.

(** The block table is flat and its rows are not delimited: a page index
    that runs past the row of a batch element by [block_id] addresses
    page [block_id] of the next batch element, whatever the strides
    passed. *)
Theorem block_table_rows_not_delimited
        (index_t : int_type) self batch_stride row_stride
        batch_stride' row_stride' bidb block_id k_block_n k_block_n' :
  pg_attn_block_tables_ptr self <> nullptr ->
  k_offset_pg index_t self batch_stride row_stride bidb
              (block_id + pg_attn_block_batch_stride self) k_block_n
  = k_offset_pg index_t self batch_stride' row_stride' (bidb + 1)
                block_id k_block_n'.
Proof.
  intros Htable. unfold k_offset_pg, block_table_entry.
  rewrite table_index_next_row.
  destruct (pg_attn_block_tables_ptr self); [reflexivity | contradiction].
Qed.

(** In the table [[2,0,1],[1,2,0]], page 3 of batch element 0 is page 0
    of batch element 1. *)
Lemma block_table_rows_not_delimited_witness :
  exists paged,
    BlockInfo true (paged_params [2; 0; 1; 1; 2; 0] 3 64) 0 nullptr
    = Some paged
    /\ k_offset_pg I64 paged 4096 128 0
                   (0 + pg_attn_block_batch_stride paged) 16
       = k_offset_pg I64 paged 0 1 (0 + 1) 0 8.
Proof.
  eexists. split; [reflexivity |].
  apply block_table_rows_not_delimited. discriminate.
Defined.

Lemma table_index_before_row self bidb :
  int (table_index self bidb 0 - 1)
  = table_index self (bidb - 1) (pg_attn_block_batch_stride self - 1).
Proof.
  unfold table_index, int. rewrite cast_sub_l.
  replace (cast I32 (bidb * pg_attn_block_batch_stride self) + 0 - 1)
    with (cast I32 (bidb * pg_attn_block_batch_stride self) + (0 - 1))
    by ring.
  rewrite !cast_add_l. f_equal. ring.
Qed.

(** The delta at page 0 of a paged cache steps out of the row of the
    batch element: it is taken against the last table slot of the
    preceding batch element, and for batch element 0 the slot read lies
    before the table, so the delta is undefined. *)
Theorem paged_delta_at_first_page
        (index_t : int_type) self bidb row_stride k_block_n :
  pg_attn_block_tables_ptr self <> nullptr ->
  k_advance_offset_pg index_t self bidb 0 row_stride k_block_n
  = (prev <- block_table_entry self (bidb - 1)
                               (pg_attn_block_batch_stride self - 1) ;;
     cur <- block_table_entry self bidb 0 ;;
     ret (int (int (prev * pg_attn_cache_block_stride self)
               - int (cur * pg_attn_cache_block_stride self))))
  /\ k_advance_offset_pg index_t self 0 0 row_stride k_block_n = None.
Proof.
  intros Htable. unfold k_advance_offset_pg.
  destruct (pg_attn_block_tables_ptr self) as [table |] eqn:Et;
    [| contradiction].
  cbn [is_nullptr]. split.
  - rewrite table_index_before_row. unfold block_table_entry.
    rewrite Et. reflexivity.
  - unfold table_index. rewrite Z.mul_0_l.
    change (int (int (int 0 + 0) - 1)) with (-1).
    reflexivity.
Qed.

(** In the table [[2,0,1],[1,2,0]] with pages of 64 elements, the delta
    at page 0 of batch element 1 is taken from page 2 of batch element
    0: [(1 - 1) * 64]. *)
Lemma paged_delta_at_first_page_witness :
  exists paged,
    BlockInfo true (paged_params [2; 0; 1; 1; 2; 0] 3 64) 1 nullptr
    = Some paged
    /\ k_advance_offset_pg I64 paged 1 0 128 16 = Some 0
    /\ k_advance_offset_pg I64 paged 0 0 128 16 = None.
Proof.
  eexists. split; [reflexivity |].
  match goal with
  | |- k_advance_offset_pg _ ?paged _ _ _ _ = _ /\ _ =>
      destruct (paged_delta_at_first_page I64 paged 1 128 16) as [Hrow _];
        [discriminate |];
      destruct (paged_delta_at_first_page I64 paged 0 128 16) as [_ Hnone];
        [discriminate |]
  end.
  split; [rewrite Hrow; reflexivity | exact Hnone].
Defined.

End AccessorFacts.

(** ** Fixed-length layout and appended keys *)

Section FixedLengthAndNewKeys.

Import BlockInfo.

(** The sentinels of an instance, read off the guards of the two
    initialisers. *)
Lemma BlockInfo_sentinels (Varlen : bool) params bidb u self :
  BlockInfo Varlen params bidb u = Some self ->
  (Varlen = false \/ Params.cu_seqlens_q params = nullptr ->
   sum_s_q self = -1)
  /\ (Varlen = false \/ Params.cu_seqlens_k params = nullptr
      \/ Params.is_seqlens_k_cumulative params = false ->
      sum_s_k self = -1).
Proof.
  unfold BlockInfo, nullptr. cbv zeta.
  destruct Varlen,
    (Params.cu_seqlens_q params) as [cq |],
    (Params.cu_seqlens_k params) as [ck |],
    (Params.is_seqlens_k_cumulative params);
    cbn [negb orb is_nullptr bind];
    destruct_binds; intros Hself; inversion Hself;
    cbn [sum_s_q sum_s_k];
    (split; [intros [H | H] | intros [H | [H | H]]]);
    first [reflexivity | discriminate H].
Qed.

Lemma BlockInfo_total_keys (Varlen : bool) params bidb u self :
  BlockInfo Varlen params bidb u = Some self ->
  actual_seqlen_k self
  = int (seqlen_k_cache self
         + (if is_nullptr (Params.knew_ptr params) then 0
            else Params.seqlen_knew params)).
Proof.
  unfold BlockInfo. cbv zeta.
  destruct_binds; intros Hself; inversion Hself; reflexivity.
Qed.

(** Fixed-length batch elements lie at the multiples of the batch
    stride.  Whenever the instance keeps the sentinel of a sequence kind
    ([Varlen = false], or no array; for the keys also an array of
    lengths), the offset of batch element 0 is 0 and the offset of every
    next batch element is one batch stride further, in [index_t]; the
    row stride plays no part. *)
Theorem fixed_length_layout
        (index_t : int_type) (Varlen : bool) params bidb u self
        batch_stride row_stride b :
  BlockInfo Varlen params bidb u = Some self ->
  (Varlen = false \/ Params.cu_seqlens_q params = nullptr ->
   q_offset index_t self batch_stride row_stride 0 = 0
   /\ q_offset index_t self batch_stride row_stride (b + 1)
      = cast index_t (q_offset index_t self batch_stride row_stride b
                      + batch_stride))
  /\ (Varlen = false \/ Params.cu_seqlens_k params = nullptr
      \/ Params.is_seqlens_k_cumulative params = false ->
      k_offset index_t self batch_stride row_stride 0 = 0
      /\ k_offset index_t self batch_stride row_stride (b + 1)
         = cast index_t (k_offset index_t self batch_stride row_stride b
                         + batch_stride)).
Proof.
  intros Hself.
  destruct (BlockInfo_sentinels Varlen params bidb u self Hself) as [Hq Hk].
  assert (Hzero : cast index_t (0 * batch_stride) = 0)
    by (rewrite Z.mul_0_l; destruct index_t; reflexivity).
  assert (Hnext : cast index_t ((b + 1) * batch_stride)
                  = cast index_t (cast index_t (b * batch_stride)
                                  + batch_stride))
    by (rewrite cast_add_l; f_equal; ring).
  split; intros Hmode.
  - unfold q_offset. rewrite (Hq Hmode). cbn [Z.eqb Pos.eqb].
    split; assumption.
  - unfold k_offset. rewrite (Hk Hmode). cbn [Z.eqb Pos.eqb].
    split; assumption.
Qed.

(** The keys of a table of lengths, at batch stride 4096: batch element
    3 is one stride after batch element 2. *)
Lemma fixed_length_layout_witness :
  exists self,
    BlockInfo true (varlen_params [0; 5; 12] [0; 8; 8] false) 1 nullptr
    = Some self
    /\ k_offset I64 self 4096 128 (2 + 1)
       = cast I64 (k_offset I64 self 4096 128 2 + 4096).
Proof.
  eexists. split; [reflexivity |].
  eapply (fixed_length_layout I64 true
            (varlen_params [0; 5; 12] [0; 8; 8] false) 1 nullptr).
  - reflexivity.
  - right. right. reflexivity.
Defined.

(** The cached key length is an [int] when the [int]s of the
    configuration are. *)
Lemma BlockInfo_cache_in_range (Varlen : bool) params bidb u self :
  int_params params ->
  BlockInfo Varlen params bidb u = Some self ->
  in_range I32 (seqlen_k_cache self).
Proof.
  intros (_ & Hck & _ & Hsk & _).
  unfold BlockInfo. cbv zeta. revert Hck.
  destruct Varlen,
    (Params.cu_seqlens_q params) as [cq |],
    (Params.cu_seqlens_k params) as [ck |],
    (Params.is_seqlens_k_cumulative params);
    intros Hck; cbn [negb orb is_nullptr bind];
    repeat match goal with
           | |- context [bind (load ?p ?i) _] =>
               let v := fresh "v" in
               let Hv := fresh "Hv" in
               destruct (load p i) as [v |] eqn:Hv;
               cbn [bind]; [| discriminate]
           end;
    intros Hself; injection Hself as <-; cbn [seqlen_k_cache];
    first [ assumption
          | apply (cast_in_range I32)
          | eapply load_int_array; [| eassumption]; assumption ].
Qed.

(** Appended keys only lengthen the sequence.  For a configuration of
    [int]s, with no new keys ([knew_ptr] null) [actual_seqlen_k] is
    [seqlen_k_cache]; with [seqlen_knew] new keys, not negative and with
    the sum still an [int], it is exactly [seqlen_k_cache + seqlen_knew]
    and not less than [seqlen_k_cache]. *)
Theorem new_keys_extend_cache (Varlen : bool) params bidb u self :
  int_params params ->
  BlockInfo Varlen params bidb u = Some self ->
  (Params.knew_ptr params = nullptr ->
   actual_seqlen_k self = seqlen_k_cache self)
  /\ (Params.knew_ptr params <> nullptr ->
      0 <= Params.seqlen_knew params ->
      seqlen_k_cache self + Params.seqlen_knew params < 2 ^ 31 ->
      actual_seqlen_k self = seqlen_k_cache self + Params.seqlen_knew params
      /\ seqlen_k_cache self <= actual_seqlen_k self).
Proof.
  intros Hints Hself.
  pose proof (BlockInfo_cache_in_range Varlen params bidb u self Hints Hself)
    as Hcache.
  apply (proj1 (in_range_int _)) in Hcache.
  rewrite (BlockInfo_total_keys Varlen params bidb u self Hself).
  split.
  - intros Hnull. rewrite Hnull. cbn [is_nullptr nullptr].
    rewrite Z.add_0_r. apply int_small. exact Hcache.
  - intros Hnew Hpos Hfit.
    destruct (Params.knew_ptr params) as [new |]; [| contradiction].
    cbn [is_nullptr]. rewrite int_small by lia. lia.
Qed.

(** Eight cached keys of batch element 0 and four new ones make
    twelve. *)
Lemma new_keys_extend_cache_witness :
  exists self,
    BlockInfo true (varlen_params [0; 5; 12] [0; 8; 8] true) 0 nullptr
    = Some self
    /\ actual_seqlen_k self = seqlen_k_cache self + 4
    /\ seqlen_k_cache self <= actual_seqlen_k self.
Proof.
  eexists. split; [reflexivity |].
  match goal with
  | |- actual_seqlen_k ?self = _ /\ _ =>
      destruct (new_keys_extend_cache true
                  (varlen_params [0; 5; 12] [0; 8; 8] true) 0 nullptr self)
        as [_ Hnew]
  end.
  - unfold int_params, varlen_params, int_array.
    cbn [Params.cu_seqlens_q Params.cu_seqlens_k Params.seqlen_q
         Params.seqlen_k Params.pg_attn_block_tables_batch_stride
         Params.pg_attn_cache_block_stride].
    repeat split; repeat constructor; discriminate.
  - reflexivity.
  - apply Hnew.
    + discriminate.
    + cbn. lia.
    + reflexivity.
Defined.

End FixedLengthAndNewKeys.
